(** * Biomni-Web frontend: conversation controller and log viewer

    A shallow embedding of [frontend/src/App.tsx] ([handleSend]),
    [frontend/src/api.ts] ([sendMessage]) and
    [frontend/src/components/LogViewer.tsx] ([LogViewer]), with the part of
    the JavaScript runtime these functions rely on ([String.prototype.trim],
    property access, [JSON.stringify]).

    Conventions.
    - A JavaScript string is a [string]: every [ascii] stands for one code
      unit below 256.
    - A value that came over the wire is a [Json]; a JavaScript value that may
      also be [undefined] is an [option Json], [None] being [undefined].
    - A React event handler is a [Proc]: the [Effect]s it performs, in
      program order, up to its end or to the [await] where it is suspended;
      the state setters are interpreted by [run_effect].
    - Every event finds the handlers of a render of the current state. *)

From Stdlib Require Import String Ascii List ZArith Bool Arith Lia.
From Stdlib Require Import DecimalString.
From Stdlib Require DecimalPos.
Import ListNotations.

Local Open Scope string_scope.
Local Open Scope list_scope.

(* ================================================================= *)
(** ** JavaScript runtime *)

Module JS.

Local Open Scope string_scope.

(** WhiteSpace and LineTerminator code points below 256: TAB, LF, VT, FF,
    CR, SP and NBSP. *)
Definition isWhiteSpace (c : ascii) : bool :=
  match nat_of_ascii c with
  | 9 | 10 | 11 | 12 | 13 | 32 | 160 => true
  | _ => false
  end.

Fixpoint trimStart (s : string) : string :=
  match s with
  | EmptyString => EmptyString
  | String c s' => if isWhiteSpace c then trimStart s' else s
  end.

Fixpoint trimEnd (s : string) : string :=
  match s with
  | EmptyString => EmptyString
  | String c s' =>
      match trimEnd s' with
      | EmptyString => if isWhiteSpace c then EmptyString else String c EmptyString
      | t => String c t
      end
  end.

(** [String.prototype.trim]. *)
Definition trim (s : string) : string := trimEnd (trimStart s).

(** ToBoolean on a string: only the empty string is falsy. *)
Definition truthy_string (s : string) : bool :=
  match s with
  | EmptyString => false
  | String _ _ => true
  end.

(** Every code unit of [s] is white space. *)
Fixpoint blank (s : string) : bool :=
  match s with
  | EmptyString => true
  | String c s' => isWhiteSpace c && blank s'
  end.

(** A Number value as [JSON.parse] produces it; NaN does not occur. A finite
    value other than zero is given by the integers [s] and [n] of step 5 of
    Number::toString: [s] holds the decimal digits of the value and [n] the
    position of its decimal point, the value being s * 10^(n - k) for [k]
    the number of digits of [s] (12 is [s = 12, n = 2], 0.5 is
    [s = 5, n = 0], 1e21 is [s = 1, n = 22]). The type also holds pairs that
    are the digits of no double (a trailing zero, more digits than a double
    has); the functions below treat them alike. *)
Inductive Number : Type :=
| Zero (negative : bool)
| Finite (negative : bool) (s : positive) (n : Z)
| Infinite (negative : bool).

(** Values produced by [JSON.parse]. An object is the list of its own
    enumerable properties in enumeration order. *)
#[warnings="-register-all"]
Inductive Json : Type :=
| JNull
| JBool (b : bool)
| JNumber (x : Number)
| JString (s : string)
| JArray (elems : list Json)
| JObject (props : list (string * Json)).

(** A JavaScript value: [None] is [undefined]. *)
Definition Value : Type := option Json.
Definition undefined : Value := None.

Fixpoint lookup (key : string) (props : list (string * Json)) : Value :=
  match props with
  | [] => undefined
  | (k, v) :: rest => if String.eqb k key then Some v else lookup key rest
  end.

(** Property read [v.key] for a name that no built-in prototype defines
    (as is the case for [response] and [logs]): [None] when the read
    throws a TypeError (on [null]), otherwise the value read. *)
Definition Get (v : Json) (key : string) : option Value :=
  match v with
  | JNull => None
  | JObject props => Some (lookup key props)
  | JBool _ | JNumber _ | JString _ | JArray _ => Some undefined
  end.

(** The decimal numeral of an integer and of an array length. *)
Definition integer_toString (n : Z) : string :=
  NilZero.string_of_int (Z.to_int n).

Definition nat_toString (n : nat) : string :=
  NilZero.string_of_uint (Nat.to_uint n).

Definition digits (s : positive) : string :=
  NilEmpty.string_of_uint (Pos.to_uint s).

Fixpoint zeros (n : nat) : string :=
  match n with
  | 0 => EmptyString
  | S n' => String "0" (zeros n')
  end.

Fixpoint take (n : nat) (s : string) : string :=
  match n, s with
  | S n', String c s' => String c (take n' s')
  | _, _ => EmptyString
  end.

Fixpoint drop (n : nat) (s : string) : string :=
  match n, s with
  | S n', String _ s' => drop n' s'
  | _, _ => s
  end.

Definition minus_sign (negative : bool) : string :=
  if negative then "-" else EmptyString.

(** Number::toString in radix 10, steps 2 to 11: plain digits with the
    decimal point where it falls when [-5 <= n <= 21], and otherwise the
    exponent form. *)
Definition Number_toString (x : Number) : string :=
  match x with
  | Zero _ => "0"
  | Infinite negative => minus_sign negative ++ "Infinity"
  | Finite negative s n =>
      let d := digits s in
      let k := Z.of_nat (String.length d) in
      minus_sign negative ++
      (if (-5 <=? n)%Z && (n <=? 21)%Z then
         if (k <=? n)%Z then d ++ zeros (Z.to_nat (n - k))
         else if (0 <? n)%Z then
           take (Z.to_nat n) d ++ "." ++ drop (Z.to_nat n) d
         else "0." ++ zeros (Z.to_nat (- n)) ++ d
       else
         let e := (if (n <? 0)%Z then "-" else "+")
                    ++ integer_toString (Z.abs (n - 1)) in
         match d with
         | String c EmptyString => String c EmptyString ++ "e" ++ e
         | _ => take 1 d ++ "." ++ drop 1 d ++ "e" ++ e
         end)
  end.

Definition isFinite (x : Number) : bool :=
  match x with
  | Zero _ | Finite _ _ _ => true
  | Infinite _ => false
  end.

Definition LF : string := String (ascii_of_nat 10) EmptyString.

Definition hex_digit (n : nat) : ascii :=
  match n with
  | 0 => "0" | 1 => "1" | 2 => "2" | 3 => "3" | 4 => "4"
  | 5 => "5" | 6 => "6" | 7 => "7" | 8 => "8" | 9 => "9"
  | 10 => "a" | 11 => "b" | 12 => "c" | 13 => "d" | 14 => "e"
  | _ => "f"
  end%char.

Definition backslash : string := String (ascii_of_nat 92) EmptyString.
Definition dquote : string := String (ascii_of_nat 34) EmptyString.

(** UnicodeEscape of a code unit below 256: backslash, u, then four
    lowercase hexadecimal digits. *)
Definition UnicodeEscape (c : ascii) : string :=
  let n := nat_of_ascii c in
  backslash ++ "u00"
    ++ String (hex_digit (n / 16)) (String (hex_digit (n mod 16)) EmptyString).

(** One step of QuoteJSONString: the short escapes of BACKSPACE, TAB, LF,
    FF, CR, the double quote and the backslash; a UnicodeEscape for the
    other control characters; every other code unit unchanged. *)
Definition quote_char (c : ascii) : string :=
  match nat_of_ascii c with
  | 8 => backslash ++ "b"
  | 9 => backslash ++ "t"
  | 10 => backslash ++ "n"
  | 12 => backslash ++ "f"
  | 13 => backslash ++ "r"
  | 34 => backslash ++ dquote
  | 92 => backslash ++ backslash
  | n => if Nat.ltb n 32 then UnicodeEscape c else String c EmptyString
  end.

Fixpoint quote_chars (s : string) : string :=
  match s with
  | EmptyString => EmptyString
  | String c s' => quote_char c ++ quote_chars s'
  end.

Definition QuoteJSONString (s : string) : string :=
  dquote ++ quote_chars s ++ dquote.

Fixpoint join (sep : string) (parts : list string) : string :=
  match parts with
  | [] => EmptyString
  | [p] => p
  | p :: rest => p ++ sep ++ join sep rest
  end.

(** SerializeJSONProperty with a non-empty [gap], no replacer and no
    [toJSON] (a parsed value holds no function). [indent] is the current
    indentation. *)
Fixpoint SerializeJSONProperty (gap indent : string) (v : Json) : string :=
  match v with
  | JNull => "null"
  | JBool true => "true"
  | JBool false => "false"
  | JNumber x => if isFinite x then Number_toString x else "null"
  | JString s => QuoteJSONString s
  | JArray elems =>
      let stepback := indent in
      let indent := indent ++ gap in
      match elems with
      | [] => "[]"
      | _ =>
          let partial := map (SerializeJSONProperty gap indent) elems in
          let separator := "," ++ LF ++ indent in
          "[" ++ LF ++ indent ++ join separator partial ++ LF ++ stepback ++ "]"
      end
  | JObject props =>
      let stepback := indent in
      let indent := indent ++ gap in
      match props with
      | [] => "{}"
      | _ =>
          let partial :=
            map (fun p => match p with
                          | (k, x) =>
                              QuoteJSONString k ++ ": "
                                ++ SerializeJSONProperty gap indent x
                          end) props in
          let separator := "," ++ LF ++ indent in
          "{" ++ LF ++ indent ++ join separator partial ++ LF ++ stepback ++ "}"
      end
  end.

Fixpoint spaces (n : nat) : string :=
  match n with
  | 0 => EmptyString
  | S n' => String " " (spaces n')
  end.

(** [JSON.stringify(value, null, space)] for a numeric [space]: the gap is
    [min(space, 10)] spaces. With an empty gap the standard drops the line
    breaks; that case is not used by the program and is not modelled. *)
Definition JSON_stringify (v : Json) (space : nat) : string :=
  SerializeJSONProperty (spaces (Nat.min space 10)) EmptyString v.

End JS.
Import JS.

(* ================================================================= *)
(** ** types.ts *)

Module Types.

Inductive Role : Type := user | assistant.

(** [LogStep] is an open record: any object. *)
Definition LogStep : Type := Json.

(** [ChatMessage] as it exists at run time: [content] and [logs] hold
    whatever was stored, an optional field that is absent reads as
    [undefined] ([None]). *)
Record ChatMessage : Type := mkChatMessage {
  role : Role;
  content : Value;
  logs : Value;
  isLoading : option bool
}.

End Types.
Import Types.

(* ================================================================= *)
(** ** axios, as far as [sendMessage] uses it *)

Module Axios.

(** What happens to a request on the wire: no response at all (network
    error, timeout), or a response with a status and a body. The body is
    the parsed JSON, or the raw text as a [JString] when it does not
    parse. *)
Inductive HttpExchange : Type :=
| Unreachable
| Responded (status : Z) (body : Json).

Record AxiosResponse : Type := mkAxiosResponse {
  data : Json;
  status : Z
}.

Inductive AxiosError : Type :=
| NetworkError
| BadStatus (response : AxiosResponse).

(** The default [validateStatus]. *)
Definition validateStatus (status : Z) : bool :=
  (200 <=? status)%Z && (status <? 300)%Z.

(** How the promise returned by [axios.post] settles: [inl] is a
    rejection, [inr] a fulfilment. No check is made on the body. *)
Definition settle (x : HttpExchange) : AxiosError + AxiosResponse :=
  match x with
  | Unreachable => inl NetworkError
  | Responded st body =>
      let response := mkAxiosResponse body st in
      if validateStatus st then inr response else inl (BadStatus response)
  end.

End Axios.
Import Axios.

(* ================================================================= *)
(** ** React, as far as the two components use it *)

Module React.

(** What a handler can do. A state updater that throws is [None]. *)
Inductive Effect : Type :=
| PreventDefault
| SetInput (v : string)
| SetMessages (updater : list ChatMessage -> option (list ChatMessage))
| SetIsLoading (b : bool)
| SetIsOpen (b : bool)
| ConsoleError (error : AxiosError).

(** An [async] handler: effects in program order, suspended at the
    [await] of an [axios.post] until the promise settles. *)
Inductive Proc : Type :=
| Done
| Do (e : Effect) (next : Proc)
| AwaitPost (url : string) (body : Json)
    (next : AxiosError + AxiosResponse -> Proc).

(** Rendered output; presentational attributes ([className], [size],
    [key]) are left out. *)
#[warnings="-register-all"]
Inductive Node : Type :=
| Text (s : string)
| Element (tag : string) (onClick : option Proc) (children : list Node).

Fixpoint map_from {A B : Type} (f : A -> nat -> B) (idx : nat) (l : list A)
  : list B :=
  match l with
  | [] => []
  | x :: rest => f x idx :: map_from f (S idx) rest
  end.

(** [Array.prototype.map] with the element and its index. *)
Definition Array_map {A B : Type} (f : A -> nat -> B) (l : list A) : list B :=
  map_from f 0 l.

(** [Node.textContent]. *)
Fixpoint textContent (n : Node) : string :=
  match n with
  | Text s => s
  | Element _ _ children =>
      fold_right (fun c acc => (textContent c ++ acc)%string) EmptyString children
  end.

(** [getElementsByTagName], in document order, the node itself included. *)
Fixpoint select (name : string) (n : Node) : list Node :=
  match n with
  | Text _ => []
  | Element tag _ children =>
      (if String.eqb tag name then [n] else [])
        ++ flat_map (select name) children
  end.

Definition children (n : Node) : list Node :=
  match n with
  | Text _ => []
  | Element _ _ children => children
  end.

(** Every event handler attached somewhere in the tree, in document
    order. *)
Fixpoint handlers (n : Node) : list Proc :=
  match n with
  | Text _ => []
  | Element _ onClick children =>
      (match onClick with Some p => [p] | None => [] end)
        ++ flat_map handlers children
  end.

End React.
Import React.

(* ================================================================= *)
(** ** api.ts *)

Module Api.

Definition API_BASE_URL : string := "http://localhost:8000/api".

(** [sendMessage(message)], in continuation-passing style: [next] receives
    the rejection, or [response.data] as it arrived. *)
Definition sendMessage (message : string) (next : AxiosError + Json -> Proc)
  : Proc :=
  AwaitPost (API_BASE_URL ++ "/chat")%string
    (JObject [("message"%string, JString message)])
    (fun settled =>
       match settled with
       | inl error => next (inl error)
       | inr response => next (inr (data response))
       end).

End Api.
Import Api.

(* ================================================================= *)
(** ** components/LogViewer.tsx *)

Module LogViewerComponent.

(** [useState(false)]. *)
Definition isOpen_initial : bool := false.

(** The [onClick] of the button, [() => setIsOpen(!isOpen)]. *)
Definition onClick (isOpen : bool) : Proc := Do (SetIsOpen (negb isOpen)) Done.

(** One render of [LogViewer] with prop [logs] ([None] when the prop is
    [undefined]) and local state [isOpen]; [None] is [null]. *)
Definition LogViewer (logs : option (list LogStep)) (isOpen : bool)
  : option Node :=
  match logs with
  | None => None
  | Some logs =>
      if Nat.eqb (length logs) 0 then None
      else
        Some (Element "div" None
          ([ Element "button" (Some (onClick isOpen))
               [ Element "span" None
                   [ Element "Terminal" None [];
                     Text "Biomni Process (";
                     Text (nat_toString (length logs));
                     Text " steps)" ];
                 if isOpen then Element "ChevronDown" None []
                 else Element "ChevronRight" None [] ] ]
           ++ (if isOpen then
                 [ Element "div" None
                     (Array_map
                        (fun log idx =>
                           Element "div" None
                             [ Element "div" None
                                 [ Text "Step "; Text (nat_toString (idx + 1)) ];
                               Element "pre" None
                                 [ Text (JSON_stringify log 2) ] ])
                        logs) ]
               else [])))
  end.

End LogViewerComponent.
Import LogViewerComponent.

(* ================================================================= *)
(** ** App.tsx *)

Module App.

(** The three [useState] cells of [App]. *)
Record State : Type := mkState {
  input : string;
  messages : list ChatMessage;
  isLoading : bool
}.

Definition initial : State := mkState EmptyString [] false.

(** [[...prev, m]]. *)
Definition append (m : ChatMessage) (prev : list ChatMessage)
  : option (list ChatMessage) :=
  Some (prev ++ [m]).

(** The placeholder of line 49. *)
Definition placeholder : ChatMessage :=
  mkChatMessage assistant (Some (JString EmptyString)) undefined (Some true).

(** The user message of line 43 and the two messages a request ends in. *)
Definition userMsg (text : string) : ChatMessage :=
  mkChatMessage user (Some (JString text)) undefined None.

Definition answer (response logs : Value) : ChatMessage :=
  mkChatMessage assistant response logs None.

(** The updater of lines 54-63: copy, [pop], then append the answer. The
    object literal reads [data.response] and [data.logs]; the updater
    throws when a read does. *)
Definition replace_with_answer (data : Json) (prev : list ChatMessage)
  : option (list ChatMessage) :=
  let newMsgs := removelast prev in
  match Get data "response", Get data "logs" with
  | Some response, Some logs =>
      Some (newMsgs ++ [answer response logs])
  | _, _ => None
  end.

Definition error_text : string :=
  "Error: Failed to connect to Biomni backend.".

Definition error_message : ChatMessage :=
  mkChatMessage assistant (Some (JString error_text)) undefined None.

(** The updater of lines 66-70. *)
Definition replace_with_error (prev : list ChatMessage)
  : option (list ChatMessage) :=
  let newMsgs := removelast prev in
  Some (newMsgs ++ [error_message]).

(** [finally]. *)
Definition finally : Proc := Do (SetIsLoading false) Done.

(** What [handleSend] does once [await sendMessage(...)] has settled. *)
Definition handleSend_settled (settled : AxiosError + Json) : Proc :=
  match settled with
  | inr data => Do (SetMessages (replace_with_answer data)) finally
  | inl error =>
      Do (ConsoleError error) (Do (SetMessages replace_with_error) finally)
  end.

(** [handleSend], closed over the [input] and [isLoading] of the render
    that created it. The text handed to [sendMessage] is [userMsg.content],
    that is [input]. *)
Definition handleSend (input : string) (isLoading : bool) : Proc :=
  Do PreventDefault
    (if negb (truthy_string (trim input)) || isLoading then Done
     else
       let userMsg := userMsg input in
       Do (SetMessages (append userMsg))
         (Do (SetInput EmptyString)
            (Do (SetIsLoading true)
               (Do (SetMessages (append placeholder))
                  (sendMessage input handleSend_settled))))).

(** [onChange] of the text field. *)
Definition onChange (value : string) : Proc := Do (SetInput value) Done.

End App.
Import App.

(* ================================================================= *)
(** ** The page: component state, requests sent, handlers suspended *)

Module Page.

Record Request : Type := mkRequest {
  url : string;
  body : Json
}.

Record World : Type := mkWorld {
  app : State;
  (** keys (message indices) of the [LogViewer] instances whose [isOpen]
      is [true] *)
  expanded : list nat;
  (** every request handed to [axios.post] so far, oldest first *)
  outbox : list Request;
  (** the handlers waiting for a promise to settle, oldest first *)
  suspended : list (AxiosError + AxiosResponse -> Proc)
}.

Definition start : World := mkWorld initial [] [] [].

Definition with_app (w : World) (s : State) : World :=
  mkWorld s (expanded w) (outbox w) (suspended w).

Definition isOpen (w : World) (key : nat) : bool :=
  existsb (Nat.eqb key) (expanded w).

Definition set_isOpen (key : nat) (b : bool) (keys : list nat) : list nat :=
  let others := filter (fun k => negb (Nat.eqb key k)) keys in
  if b then key :: others else others.

(** One effect, performed by the component instance [self] (the key of a
    [LogViewer]; [App] ignores it). [None]: a state updater threw, React
    unmounts the tree. *)
Definition run_effect (self : nat) (e : Effect) (w : World) : option World :=
  match e with
  | PreventDefault => Some w
  | ConsoleError _ => Some w
  | SetInput v =>
      Some (with_app w (mkState v (messages (app w)) (isLoading (app w))))
  | SetIsLoading b =>
      Some (with_app w (mkState (input (app w)) (messages (app w)) b))
  | SetMessages updater =>
      match updater (messages (app w)) with
      | Some next =>
          Some (with_app w (mkState (input (app w)) next (isLoading (app w))))
      | None => None
      end
  | SetIsOpen b =>
      Some (mkWorld (app w) (set_isOpen self b (expanded w)) (outbox w)
              (suspended w))
  end.

(** Runs a handler up to its end or to its [await]. *)
Fixpoint run (self : nat) (p : Proc) (w : World) : option World :=
  match p with
  | Done => Some w
  | Do e next =>
      match run_effect self e w with
      | Some w' => run self next w'
      | None => None
      end
  | AwaitPost u b next =>
      Some (mkWorld (app w) (expanded w) (outbox w ++ [mkRequest u b])
              (suspended w ++ [next]))
  end.

(** Every state the page goes through while [p] runs from [w], [w]
    included. *)
Fixpoint observable (self : nat) (p : Proc) (w : World) : list World :=
  w ::
  match p with
  | Done => []
  | Do e next =>
      match run_effect self e w with
      | Some w' => observable self next w'
      | None => []
      end
  | AwaitPost u b next =>
      [mkWorld (app w) (expanded w) (outbox w ++ [mkRequest u b])
         (suspended w ++ [next])]
  end.

Fixpoint remove_nth {A : Type} (i : nat) (l : list A) : list A :=
  match i, l with
  | _, [] => []
  | 0, _ :: rest => rest
  | S i', x :: rest => x :: remove_nth i' rest
  end.

(** What can happen to the page: typing, submitting the form, a click on
    the button of the [LogViewer] with key [key], and the promise of the
    [i]-th suspended handler settling. A click is let happen for every key,
    also where the page shows no button for it; what is proved of [Toggle]
    is what a click changes, not when one is possible. *)
Inductive Event : Type :=
| Change (value : string)
| Submit
| Toggle (key : nat)
| Settle (i : nat) (x : HttpExchange).

(** The handler an event runs, the instance that runs it and the world it
    starts from. The text field is disabled while [isLoading]; [Settle i]
    resumes the [i]-th suspended handler, if there is one. *)
Definition dispatch (w : World) (ev : Event) : nat * Proc * World :=
  match ev with
  | Change value =>
      (0, if isLoading (app w) then Done else onChange value, w)
  | Submit => (0, handleSend (input (app w)) (isLoading (app w)), w)
  | Toggle key =>
      (key, LogViewerComponent.onClick (isOpen w key), w)
  | Settle i x =>
      match nth_error (suspended w) i with
      | Some next =>
          (0, next (settle x),
           mkWorld (app w) (expanded w) (outbox w)
             (remove_nth i (suspended w)))
      | None => (0, Done, w)
      end
  end.

Definition step (w : World) (ev : Event) : option World :=
  match dispatch w ev with
  | (self, p, w0) => run self p w0
  end.

Definition states_during (w : World) (ev : Event) : list World :=
  match dispatch w ev with
  | (self, p, w0) => observable self p w0
  end.

Inductive reachable : World -> Prop :=
| reachable_start : reachable start
| reachable_step w ev w' :
    reachable w -> step w ev = Some w' -> reachable w'.

(** [msg.isLoading] is truthy. *)
Definition pending (m : ChatMessage) : bool :=
  match Types.isLoading m with
  | Some true => true
  | _ => false
  end.

Definition count_pending (l : list ChatMessage) : nat :=
  length (filter pending l).

End Page.
Import Page.

(* ================================================================= *)
(** ** Notions the properties are stated with *)

(** The request [sendMessage text] posts. *)
Definition chat_request (text : string) : Request :=
  mkRequest "http://localhost:8000/api/chat"
    (JObject [("message"%string, JString text)]).

(** The continuation [handleSend] leaves behind at its [await]. *)
Definition awaiting_reply (settled : AxiosError + AxiosResponse) : Proc :=
  match settled with
  | inl error => handleSend_settled (inl error)
  | inr response => handleSend_settled (inr (data response))
  end.

(** The body has the shape of [ChatResponse] in api.ts: a string under
    [response] and an array under [logs]. *)
Definition is_ChatResponse (body : Json) : bool :=
  match Get body "response", Get body "logs" with
  | Some (Some (JString _)), Some (Some (JArray _)) => true
  | _, _ => false
  end.

(** The three failure causes of the specification: the backend cannot be
    reached, it answers with a status outside 2xx, or the body does not have
    the expected shape. *)
Definition transport_failure (x : HttpExchange) : bool :=
  match x with
  | Unreachable => true
  | Responded _ _ => false
  end.

Definition error_status (x : HttpExchange) : bool :=
  match x with
  | Unreachable => false
  | Responded st _ => negb (validateStatus st)
  end.

Definition shape_failure (x : HttpExchange) : bool :=
  match x with
  | Unreachable => false
  | Responded st body => validateStatus st && negb (is_ChatResponse body)
  end.

(** The world right after [handleSend] has accepted [text] in [w]. *)
Definition submitted (w : World) (text : string) : World :=
  mkWorld
    (mkState EmptyString (messages (app w) ++ [userMsg text; placeholder]) true)
    (expanded w)
    (outbox w ++ [chat_request text])
    (suspended w ++ [awaiting_reply]).

(** The world after the request of [submitted w text] has ended in the last
    message [m]. *)
Definition resolved (w : World) (text : string) (m : ChatMessage) : World :=
  mkWorld
    (mkState EmptyString (messages (app w) ++ [userMsg text; m]) false)
    (expanded w)
    (outbox w ++ [chat_request text])
    (suspended w).

(** No request is in flight and no message is pending, or exactly one
    request is in flight and its placeholder is the last message, right
    after the user message whose text was posted last. *)
Definition idle (w : World) : Prop :=
  isLoading (app w) = false /\ suspended w = [] /\
  count_pending (messages (app w)) = 0.

Definition in_flight (w : World) : Prop :=
  isLoading (app w) = true /\ suspended w = [awaiting_reply] /\
  exists pre text sent,
    messages (app w) = pre ++ [userMsg text; placeholder] /\
    count_pending pre = 0 /\
    outbox w = sent ++ [chat_request text].

Definition consistent (w : World) : Prop := idle w \/ in_flight w.


Definition pending_is_last_placeholder (w : World) : Prop :=
  forall pre m post,
    messages (app w) = pre ++ m :: post ->
    pending m = true ->
    post = [] /\ role m = assistant /\ content m = Some (JString EmptyString).

(** The messages [l] next to the flag [loading]: no message is pending, or
    [loading] is set and the only pending message is the placeholder at the
    end. *)
Definition tidy_messages (l : list ChatMessage) (loading : bool) : Prop :=
  count_pending l = 0 \/
  (loading = true /\ exists pre, l = pre ++ [placeholder] /\ count_pending pre = 0).

Definition tidy (w : World) : Prop :=
  tidy_messages (messages (app w)) (isLoading (app w)).

(** The block of the expanded view for the step [log] at index [idx]. *)
Definition step_block (log : LogStep) (idx : nat) : Node :=
  Element "div" None
    [ Element "div" None [Text "Step "; Text (nat_toString (idx + 1))];
      Element "pre" None [Text (JSON_stringify log 2)] ].

(** The label of the control for [n] steps. *)
Definition control_label (n : nat) : string :=
  ("Biomni Process (" ++ nat_toString n ++ " steps)")%string.

(** [s] occurs in [t]. *)
Definition occurs_in (s t : string) : Prop :=
  exists before after, t = (before ++ s ++ after)%string.

(* ================================================================= *)
(** ** App.tsx, lines 76-143: what [App] renders *)

Module AppRender.

Local Open Scope string_scope.

Inductive Attr : Type :=
| ClassName (s : string)
| Key (idx : nat)
| Size (n : nat)
| TypeAttr (s : string)
| ValueAttr (s : string)
| Placeholder (s : string)
| Disabled (b : bool)
| OnSubmit (p : Proc)
| OnChange (h : string -> Proc)
| Ref
| RemarkPlugins.

(** The element tree [App] returns, before React renders the components in
    it: text, a JavaScript value in child position, a host element or one of
    the imported components, and [<LogViewer logs=... />] with its prop. *)
#[warnings="-register-all"]
Inductive Jsx : Type :=
| Str (s : string)
| Expr (v : Value)
| Tag (name : string) (attrs : list Attr) (children : list Jsx)
| LogViewerElement (logs : Value).

(** ToBoolean. *)
Definition ToBoolean (v : Value) : bool :=
  match v with
  | None => false
  | Some JNull => false
  | Some (JBool b) => b
  | Some (JNumber (Zero _)) => false
  | Some (JNumber (Finite _ _ _)) | Some (JNumber (Infinite _)) => true
  | Some (JString s) => truthy_string s
  | Some (JArray _) | Some (JObject _) => true
  end.

Definition is_user (msg : ChatMessage) : bool :=
  match role msg with
  | user => true
  | assistant => false
  end.

(** Line 111: [msg.role === 'assistant' && !msg.isLoading && msg.logs &&
    (...)]. The chain evaluates to [false], to the falsy [msg.logs] itself,
    or to the element. *)
Definition logs_slot (msg : ChatMessage) : Jsx :=
  if is_user msg then Expr (Some (JBool false))
  else if pending msg then Expr (Some (JBool false))
  else if ToBoolean (logs msg) then
    Tag "div" [ClassName "w-full"] [LogViewerElement (logs msg)]
  else Expr (logs msg).

(** Lines 85-118: the row of one message. *)
Definition message_row (msg : ChatMessage) (idx : nat) : Jsx :=
  Tag "div"
    [ Key idx;
      ClassName ("flex gap-4 "
                   ++ (if is_user msg then "flex-row-reverse" else EmptyString)) ]
    [ Tag "div"
        [ ClassName ("p-2 rounded-full h-fit flex-shrink-0 "
                       ++ (if is_user msg then "bg-blue-100" else "bg-gray-200")) ]
        [ if is_user msg then Tag "User" [Size 20; ClassName "text-blue-600"] []
          else Tag "Bot" [Size 20; ClassName "text-gray-600"] [] ];
      Tag "div"
        [ ClassName ("flex flex-col max-w-[80%] "
                       ++ (if is_user msg then "items-end" else "items-start")) ]
        [ Tag "div"
            [ ClassName ("p-4 rounded-lg shadow-sm text-sm text-left "
                           ++ (if is_user msg then "bg-blue-600 text-white"
                               else "bg-white text-gray-800 border")) ]
            [ if pending msg then
                Tag "div" [ClassName "flex items-center gap-2"]
                  [ Tag "Loader2" [ClassName "animate-spin"; Size 16] [];
                    Tag "span" [] [Str "Biomni is thinking..."] ]
              else
                Tag "div"
                  [ClassName "prose prose-sm max-w-none dark:prose-invert break-words"]
                  [ Tag "ReactMarkdown" [RemarkPlugins] [Expr (content msg)] ] ];
          logs_slot msg ] ].

(** Lines 76-143. *)
Definition render (st : State) : Jsx :=
  Tag "div" [ClassName "flex flex-col h-screen bg-white"]
    [ Tag "header"
        [ClassName "bg-blue-600 text-white p-4 shadow-md flex items-center gap-2"]
        [ Tag "Bot" [Size 24] [];
          Tag "h1" [ClassName "text-xl font-bold"] [Str "Biomni Web Interface"] ];
      Tag "div" [ClassName "flex-1 overflow-y-auto p-4 space-y-6 bg-gray-50"]
        (Array_map message_row (messages st) ++ [Tag "div" [Ref] []]);
      Tag "form"
        [ OnSubmit (handleSend (input st) (App.isLoading st));
          ClassName "p-4 bg-white border-t border-gray-200" ]
        [ Tag "div" [ClassName "flex gap-2 max-w-4xl mx-auto"]
            [ Tag "input"
                [ TypeAttr "text";
                  ValueAttr (input st);
                  OnChange onChange;
                  Placeholder "Ask Biomni a scientific question...";
                  Disabled (App.isLoading st);
                  ClassName "flex-1 p-3 border border-gray-300 rounded-lg focus:outline-none focus:ring-2 focus:ring-blue-500 disabled:bg-gray-100" ]
                [];
              Tag "button"
                [ TypeAttr "submit";
                  Disabled (App.isLoading st
                            || negb (truthy_string (trim (input st))));
                  ClassName "bg-blue-600 text-white p-3 rounded-lg hover:bg-blue-700 disabled:bg-blue-300 transition-colors flex items-center justify-center w-12 flex-shrink-0" ]
                [ if App.isLoading st then Tag "Loader2" [ClassName "animate-spin"] []
                  else Tag "Send" [] [] ] ] ] ].

(** Elements with a given tag, in document order. *)
Fixpoint by_tag (name : string) (e : Jsx) : list Jsx :=
  match e with
  | Tag tag _ children =>
      (if String.eqb tag name then [e] else [])
        ++ flat_map (by_tag name) children
  | Str _ | Expr _ | LogViewerElement _ => []
  end.

(** The [logs] prop of every [LogViewer] in the tree, in document order. *)
Fixpoint log_viewers (e : Jsx) : list Value :=
  match e with
  | LogViewerElement logs => [logs]
  | Tag _ _ children => flat_map log_viewers children
  | Str _ | Expr _ => []
  end.

(** The text children of the tree, in document order. *)
Fixpoint texts (e : Jsx) : list string :=
  match e with
  | Str s => [s]
  | Tag _ _ children => flat_map texts children
  | Expr _ | LogViewerElement _ => []
  end.

Definition attrs_of (e : Jsx) : list Attr :=
  match e with
  | Tag _ attrs _ => attrs
  | Str _ | Expr _ | LogViewerElement _ => []
  end.

Fixpoint disabled_attr (attrs : list Attr) : option bool :=
  match attrs with
  | [] => None
  | Disabled b :: _ => Some b
  | _ :: rest => disabled_attr rest
  end.

Fixpoint value_attr (attrs : list Attr) : option string :=
  match attrs with
  | [] => None
  | ValueAttr s :: _ => Some s
  | _ :: rest => value_attr rest
  end.

Fixpoint onSubmit_attr (attrs : list Attr) : option Proc :=
  match attrs with
  | [] => None
  | OnSubmit p :: _ => Some p
  | _ :: rest => onSubmit_attr rest
  end.

(** The rows of the transcript: the children of the scroll container but
    the last, which is the scroll anchor. *)
Definition rows (e : Jsx) : list Jsx :=
  match e with
  | Tag _ _ [_; Tag _ _ children; _] => removelast children
  | _ => []
  end.

(** The row shows the thinking indicator. *)
Definition thinking (row : Jsx) : bool :=
  existsb (String.eqb "Biomni is thinking...") (texts row).

(** What React prints for a primitive in child position: a string or a
    number as text, nothing for a boolean, [null] or [undefined]. Arrays
    and objects in child position are not modelled ([None]). *)
Definition printed (v : Value) : option string :=
  match v with
  | None | Some JNull | Some (JBool _) => Some EmptyString
  | Some (JNumber x) => Some (Number_toString x)
  | Some (JString s) => Some s
  | Some (JArray _) | Some (JObject _) => None
  end.

End AppRender.
Import AppRender.

(* ================================================================= *)
(** ** Notions for the properties of whole runs *)

(** [w'] is what a sequence of events makes of [w]. *)
Inductive reaches : World -> World -> Prop :=
| reaches_refl w : reaches w w
| reaches_step w ev w' w'' :
    step w ev = Some w' -> reaches w' w'' -> reaches w w''.

(** The messages are the exchanges of the accepted submissions [sent], in
    order: for each text its user message, then an assistant message. *)
Inductive exchanges : list ChatMessage -> list string -> Prop :=
| exchanges_nil : exchanges [] []
| exchanges_snoc l sent text m :
    exchanges l sent ->
    trim text <> EmptyString ->
    role m = assistant ->
    exchanges (l ++ [userMsg text; m]) (sent ++ [text]).

(** The text a user message shows. *)
Definition user_texts (l : list ChatMessage) : list Value :=
  map content (filter is_user l).

(** What can follow a serialized value inside a serialization: nothing, a
    comma or a line feed. *)
Definition delimited (r : string) : bool :=
  match r with
  | EmptyString => true
  | String c _ => Ascii.eqb c ","%char || Ascii.eqb c (ascii_of_nat 10)
  end.

(** The string holds no comma and no line feed. *)
Fixpoint unbroken (s : string) : bool :=
  match s with
  | EmptyString => true
  | String c s' =>
      negb (Ascii.eqb c ","%char || Ascii.eqb c (ascii_of_nat 10))
        && unbroken s'
  end.

(** What [JSON.stringify] prints for a number. *)
Definition Number_text (x : Number) : string :=
  if isFinite x then Number_toString x else "null"%string.

(** The kinds of text a value is printed as: the word null (for [null] and
    for a number that is not finite), a boolean, a numeral, a quoted
    string, an array, an object. *)
Definition kind (v : Json) : nat :=
  match v with
  | JNull => 0
  | JBool _ => 1
  | JNumber x => if isFinite x then 2 else 0
  | JString _ => 3
  | JArray _ => 4
  | JObject _ => 5
  end.

(** Two values that differ at most in numbers that are printed alike: the
    same nesting, the same keys in the same order, the same strings and
    booleans, and at every place of a number two numbers with the same
    numeral (as 0 and -0), or [null] and a number that is not finite. *)
#[warnings="-register-all"]
Inductive same_print : Json -> Json -> Prop :=
| same_null : same_print JNull JNull
| same_null_number x : isFinite x = false -> same_print JNull (JNumber x)
| same_number_null x : isFinite x = false -> same_print (JNumber x) JNull
| same_number x y :
    Number_text x = Number_text y -> same_print (JNumber x) (JNumber y)
| same_bool b : same_print (JBool b) (JBool b)
| same_string s : same_print (JString s) (JString s)
| same_array elems elems' :
    Forall2 same_print elems elems' ->
    same_print (JArray elems) (JArray elems')
| same_object props props' :
    Forall2 (fun p q => fst p = fst q /\ same_print (snd p) (snd q))
      props props' ->
    same_print (JObject props) (JObject props').

(** A code unit that QuoteJSONString leaves as it is: not a control
    character, not the double quote, not the backslash. *)
Definition plain_char (c : ascii) : bool :=
  negb (Nat.ltb (nat_of_ascii c) 32)
    && negb (Nat.eqb (nat_of_ascii c) 34)
    && negb (Nat.eqb (nat_of_ascii c) 92).

Fixpoint plain (s : string) : bool :=
  match s with
  | EmptyString => true
  | String c s' => plain_char c && plain s'
  end.

(** Every code unit below 256. *)
Definition all_ascii : list ascii := map ascii_of_nat (seq 0 256).

(* ================================================================= *)
(** ** Strings *)

Lemma trimStart_empty (s : string) :
  trimStart s = EmptyString <-> blank s = true.
Proof.
  induction s as [|c s IH]; simpl.
  - tauto.
  - destruct (isWhiteSpace c); simpl.
    + exact IH.
    + split; discriminate.
Qed.

Lemma trimEnd_empty (s : string) :
  trimEnd s = EmptyString <-> blank s = true.
Proof.
  induction s as [|c s IH]; simpl.
  - tauto.
  - destruct (trimEnd s) eqn:E.
    + destruct (isWhiteSpace c); simpl.
      * split; intros _; [apply IH|]; reflexivity.
      * split; discriminate.
    + split; [discriminate|].
      intros H. apply andb_true_iff in H. destruct H as [_ H].
      apply IH in H. discriminate.
Qed.

Lemma blank_trimStart (s : string) : blank (trimStart s) = blank s.
Proof.
  induction s as [|c s IH]; simpl; [reflexivity|].
  destruct (isWhiteSpace c) eqn:E; simpl; [exact IH|].
  rewrite E. reflexivity.
Qed.

(** [trim] leaves nothing exactly when the string is empty or white space
    only. *)
Lemma trim_empty_iff_blank (s : string) :
  trim s = EmptyString <-> blank s = true.
Proof.
  unfold trim. rewrite trimEnd_empty, blank_trimStart. tauto.
Qed.

Lemma guard_blocks (text : string) (loading : bool) :
  negb (truthy_string (trim text)) || loading = true <->
  trim text = EmptyString \/ loading = true.
Proof.
  rewrite orb_true_iff.
  destruct (trim text); simpl; split; intros [H|H]; auto; discriminate.
Qed.

Lemma guard_passes (text : string) :
  trim text <> EmptyString ->
  negb (truthy_string (trim text)) || false = false.
Proof.
  destruct (trim text); simpl; congruence.
Qed.

(* ================================================================= *)
(** ** The two shapes of [handleSend] *)

Lemma handleSend_rejects (text : string) (loading : bool) :
  trim text = EmptyString \/ loading = true ->
  handleSend text loading = Do PreventDefault Done.
Proof.
  intros H. apply guard_blocks in H.
  unfold handleSend. rewrite H. reflexivity.
Qed.

Lemma handleSend_accepts (text : string) :
  trim text <> EmptyString ->
  handleSend text false =
  Do PreventDefault
    (Do (SetMessages (append (userMsg text)))
       (Do (SetInput EmptyString)
          (Do (SetIsLoading true)
             (Do (SetMessages (append placeholder))
                (AwaitPost (url (chat_request text)) (body (chat_request text))
                   awaiting_reply))))).
Proof.
  intros H. unfold handleSend. rewrite (guard_passes _ H). reflexivity.
Qed.

Lemma app_two {A : Type} (l : list A) (a b : A) :
  (l ++ [a]) ++ [b] = l ++ [a; b].
Proof. rewrite <- app_assoc. reflexivity. Qed.

Lemma run_accepted (w : World) (text : string) :
  input (app w) = text ->
  isLoading (app w) = false ->
  trim text <> EmptyString ->
  step w Submit = Some (submitted w text).
Proof.
  intros Hi Hl Ht. unfold step, dispatch. rewrite Hi, Hl.
  rewrite (handleSend_accepts _ Ht). cbn.
  unfold submitted. rewrite app_two. reflexivity.
Qed.

Lemma states_accepted (w : World) (text : string) :
  input (app w) = text ->
  isLoading (app w) = false ->
  trim text <> EmptyString ->
  states_during w Submit =
  [ w; w;
    with_app w (mkState text (messages (app w) ++ [userMsg text]) false);
    with_app w (mkState EmptyString (messages (app w) ++ [userMsg text]) false);
    with_app w (mkState EmptyString (messages (app w) ++ [userMsg text]) true);
    with_app w (mkState EmptyString
                  (messages (app w) ++ [userMsg text; placeholder]) true);
    submitted w text ].
Proof.
  intros Hi Hl Ht. unfold states_during, dispatch. rewrite Hi, Hl.
  rewrite (handleSend_accepts _ Ht). cbn.
  rewrite Hi, Hl, app_two. reflexivity.
Qed.

(* ================================================================= *)
(** ** C1, C2: what [submit] does *)

(** C1. When the text in the input field is not empty after trimming and
    [isLoading] is false, submitting appends exactly two messages, the user
    message holding the submitted text and then the pending assistant
    message with empty content, clears the input, sets [isLoading] and hands
    one request with the text to the backend. All of this is done by the
    submit event itself, and in every state the page goes through during it
    the two messages are in place once the request has left. *)
Theorem submit_appends_user_then_placeholder (w : World) (text : string) :
  input (app w) = text ->
  trim text <> EmptyString ->
  isLoading (app w) = false ->
  exists w',
    step w Submit = Some w' /\
    messages (app w') =
      messages (app w)
        ++ [ mkChatMessage user (Some (JString text)) undefined None;
             mkChatMessage assistant (Some (JString EmptyString)) undefined
               (Some true) ] /\
    length (messages (app w')) = length (messages (app w)) + 2 /\
    input (app w') = EmptyString /\
    isLoading (app w') = true /\
    outbox w' = outbox w ++ [chat_request text] /\
    suspended w' = suspended w ++ [awaiting_reply] /\
    (forall s, In s (states_during w Submit) ->
               outbox s <> outbox w ->
               messages (app s) = messages (app w')).
Proof.
  intros Hi Ht Hl. exists (submitted w text).
  split; [apply run_accepted; assumption|].
  split; [reflexivity|].
  split; [cbn; rewrite length_app; reflexivity|].
  do 4 (split; [reflexivity|]).
  intros s Hs Hout. rewrite (states_accepted w text Hi Hl Ht) in Hs.
  cbn in Hs.
  repeat (destruct Hs as [<-|Hs]; [try (exfalso; apply Hout; reflexivity); try reflexivity|]).
  contradiction.
Qed.

Lemma submit_appends_user_then_placeholder_witness :
  exists w',
    step (mkWorld (mkState "hi" [] false) [] [] []) Submit = Some w' /\
    messages (app w') = [userMsg "hi"; placeholder].
Proof.
  destruct (submit_appends_user_then_placeholder
              (mkWorld (mkState "hi" [] false) [] [] []) "hi")
    as (w' & Hs & Hm & _).
  - reflexivity.
  - vm_compute. discriminate.
  - reflexivity.
  - exists w'. split; [exact Hs | exact Hm].
Defined.

(** C2. When the input is empty or white space only, or while [isLoading]
    is true, submitting changes nothing: the messages, the input, [isLoading],
    the requests sent and the suspended handlers are the same afterwards and
    in every state in between. *)
Theorem submit_is_noop_when_blank_or_loading (w : World) :
  blank (input (app w)) = true \/ isLoading (app w) = true ->
  step w Submit = Some w /\
  (forall s, In s (states_during w Submit) -> s = w).
Proof.
  intros H.
  assert (G : trim (input (app w)) = EmptyString \/ isLoading (app w) = true)
    by (destruct H as [H|H]; [left; apply trim_empty_iff_blank, H | right; exact H]).
  unfold step, states_during, dispatch.
  rewrite (handleSend_rejects _ _ G). cbn.
  split; [reflexivity|].
  intros s [<-|[<-|[]]]; reflexivity.
Qed.

Lemma submit_is_noop_when_blank_or_loading_witness :
  step (mkWorld (mkState "  " [userMsg "a"] false) [] [] []) Submit
  = Some (mkWorld (mkState "  " [userMsg "a"] false) [] [] [])
  /\ step (mkWorld (mkState "x" [userMsg "a"; placeholder] true) [] [chat_request "a"] [awaiting_reply]) Submit
  = Some (mkWorld (mkState "x" [userMsg "a"; placeholder] true) [] [chat_request "a"] [awaiting_reply]).
Proof.
  split.
  - apply (submit_is_noop_when_blank_or_loading
             (mkWorld (mkState "  " [userMsg "a"] false) [] [] [])).
    left. reflexivity.
  - apply (submit_is_noop_when_blank_or_loading
             (mkWorld (mkState "x" [userMsg "a"; placeholder] true) []
                [chat_request "a"] [awaiting_reply])).
    right. reflexivity.
Defined.

(* ================================================================= *)
(** ** Resuming the suspended handler *)

Lemma nth_error_snoc {A : Type} (l : list A) (a : A) :
  nth_error (l ++ [a]) (length l) = Some a.
Proof. induction l as [|x l IH]; simpl; [reflexivity | exact IH]. Qed.

Lemma remove_nth_snoc {A : Type} (l : list A) (a : A) :
  remove_nth (length l) (l ++ [a]) = l.
Proof. induction l as [|x l IH]; simpl; [reflexivity | rewrite IH; reflexivity]. Qed.

Lemma removelast_two {A : Type} (l : list A) (a b : A) :
  removelast (l ++ [a; b]) = l ++ [a].
Proof. rewrite removelast_app by discriminate. reflexivity. Qed.

(** The world in which the handler of [submitted w text] resumes. *)
Lemma dispatch_settle (w : World) (text : string) (x : HttpExchange) :
  dispatch (submitted w text) (Settle (length (suspended w)) x) =
  (0, awaiting_reply (settle x),
   mkWorld (app (submitted w text)) (expanded w)
     (outbox w ++ [chat_request text]) (suspended w)).
Proof.
  unfold dispatch. cbn [suspended submitted].
  rewrite nth_error_snoc, remove_nth_snoc. reflexivity.
Qed.

Lemma settle_rejected (x : HttpExchange) :
  transport_failure x = true \/ error_status x = true ->
  exists error, settle x = inl error.
Proof.
  destruct x as [|st body]; cbn.
  - intros _. eexists. reflexivity.
  - intros [H|H]; [discriminate|].
    apply negb_true_iff in H. rewrite H. eexists. reflexivity.
Qed.

Lemma settle_fulfilled (st : Z) (body : Json) :
  validateStatus st = true ->
  settle (Responded st body) = inr (mkAxiosResponse body st).
Proof. intros H. cbn. rewrite H. reflexivity. Qed.

Lemma step_settle_answer (w : World) (text : string) (st : Z) (body : Json)
    (response logs : Value) :
  validateStatus st = true ->
  Get body "response" = Some response ->
  Get body "logs" = Some logs ->
  step (submitted w text) (Settle (length (suspended w)) (Responded st body))
  = Some (resolved w text (answer response logs)).
Proof.
  intros Hst Hr Hl. unfold step. rewrite dispatch_settle.
  rewrite (settle_fulfilled _ _ Hst). cbn.
  unfold replace_with_answer. rewrite Hr, Hl, removelast_two, app_two.
  reflexivity.
Qed.

Lemma states_settle_answer (w : World) (text : string) (st : Z) (body : Json)
    (response logs : Value) :
  validateStatus st = true ->
  Get body "response" = Some response ->
  Get body "logs" = Some logs ->
  states_during (submitted w text)
    (Settle (length (suspended w)) (Responded st body))
  = [ mkWorld (app (submitted w text)) (expanded w)
        (outbox w ++ [chat_request text]) (suspended w);
      with_app (resolved w text (answer response logs))
        (mkState EmptyString
           (messages (app w) ++ [userMsg text; answer response logs]) true);
      resolved w text (answer response logs) ].
Proof.
  intros Hst Hr Hl. unfold states_during. rewrite dispatch_settle.
  rewrite (settle_fulfilled _ _ Hst). cbn.
  unfold replace_with_answer. rewrite Hr, Hl, removelast_two, app_two.
  reflexivity.
Qed.

Lemma step_settle_error (w : World) (text : string) (x : HttpExchange) :
  transport_failure x = true \/ error_status x = true ->
  step (submitted w text) (Settle (length (suspended w)) x)
  = Some (resolved w text error_message).
Proof.
  intros H. destruct (settle_rejected x H) as [error He].
  unfold step. rewrite dispatch_settle, He. cbn.
  unfold replace_with_error. rewrite removelast_two, app_two.
  reflexivity.
Qed.

Lemma nth_error_app_second {A : Type} (l : list A) (a b : A) :
  nth_error (l ++ [a; b]) (length l + 1) = Some b.
Proof.
  induction l as [|x l IH]; simpl; [reflexivity | exact IH].
Qed.

(* ================================================================= *)
(** ** C3, C4, C9: how a request ends *)

(** C3. When the backend answers an accepted submit with a 2xx response
    whose body holds [response] and [logs], the pending message is replaced
    at its own position by the assistant message with that content and those
    logs and without the pending flag; the list is as long as it was right
    after the two messages were appended; the replacement comes first and
    [isLoading] is set to false after it. *)
Theorem success_replaces_placeholder_in_place
    (w : World) (text : string) (st : Z) (body : Json) (response logs : Value) :
  input (app w) = text ->
  trim text <> EmptyString ->
  isLoading (app w) = false ->
  validateStatus st = true ->
  Get body "response" = Some response ->
  Get body "logs" = Some logs ->
  exists w1 mid w2,
    step w Submit = Some w1 /\
    step w1 (Settle (length (suspended w)) (Responded st body)) = Some w2 /\
    nth_error (messages (app w1)) (length (messages (app w)) + 1)
      = Some placeholder /\
    nth_error (messages (app w2)) (length (messages (app w)) + 1)
      = Some (mkChatMessage assistant response logs None) /\
    messages (app w2) =
      messages (app w) ++ [userMsg text; mkChatMessage assistant response logs None] /\
    count_pending (messages (app w2)) = count_pending (messages (app w)) /\
    length (messages (app w2)) = length (messages (app w1)) /\
    isLoading (app w2) = false /\
    last (states_during w1 (Settle (length (suspended w)) (Responded st body))) w1
      = w2 /\
    In mid (states_during w1 (Settle (length (suspended w)) (Responded st body))) /\
    messages (app mid) = messages (app w2) /\ isLoading (app mid) = true.
Proof.
  intros Hi Ht Hl Hst Hr Hlogs.
  exists (submitted w text).
  exists (with_app (resolved w text (answer response logs))
            (mkState EmptyString
               (messages (app w) ++ [userMsg text; answer response logs]) true)).
  exists (resolved w text (answer response logs)).
  rewrite (states_settle_answer w text st body response logs Hst Hr Hlogs).
  split; [apply run_accepted; assumption|].
  split; [apply step_settle_answer; assumption|].
  split; [apply nth_error_app_second|].
  split; [apply nth_error_app_second|].
  split; [reflexivity|].
  split.
  { cbn [resolved app messages]. unfold count_pending.
    rewrite filter_app. cbn. rewrite app_nil_r. reflexivity. }
  split; [cbn; rewrite !length_app; reflexivity|].
  split; [reflexivity|].
  split; [reflexivity|].
  split; [right; left; reflexivity|].
  split; reflexivity.
Qed.

Lemma success_replaces_placeholder_in_place_witness :
  exists w1 w2,
    step (mkWorld (mkState "What is CRISPR?" [] false) [] [] []) Submit = Some w1 /\
    step w1 (Settle 0 (Responded 200
               (JObject [("response"%string, JString "CRISPR is...");
                         ("logs"%string,
                          JArray [JObject [("step"%string, JString "search");
                                           ("tool"%string, JString "pubmed")]])])))
      = Some w2 /\
    messages (app w2) =
      [ userMsg "What is CRISPR?";
        answer (Some (JString "CRISPR is..."))
          (Some (JArray [JObject [("step"%string, JString "search");
                                  ("tool"%string, JString "pubmed")]])) ].
Proof.
  destruct (success_replaces_placeholder_in_place
              (mkWorld (mkState "What is CRISPR?" [] false) [] [] [])
              "What is CRISPR?" 200
              (JObject [("response"%string, JString "CRISPR is...");
                        ("logs"%string,
                         JArray [JObject [("step"%string, JString "search");
                                          ("tool"%string, JString "pubmed")]])])
              (Some (JString "CRISPR is..."))
              (Some (JArray [JObject [("step"%string, JString "search");
                                      ("tool"%string, JString "pubmed")]])))
    as (w1 & mid & w2 & H1 & H2 & _ & _ & H3 & _).
  - reflexivity.
  - vm_compute. discriminate.
  - reflexivity.
  - reflexivity.
  - reflexivity.
  - reflexivity.
  - exists w1, w2. split; [exact H1|]. split; [exact H2 | exact H3].
Defined.

Lemma step_change_idle (w : World) (value : string) :
  isLoading (app w) = false ->
  step w (Change value) =
  Some (with_app w (mkState value (messages (app w)) false)).
Proof.
  intros H. unfold step, dispatch. rewrite H. cbn. rewrite H. reflexivity.
Qed.

Lemma Get_not_null (body : Json) (key : string) :
  body <> JNull -> exists v, Get body key = Some v.
Proof.
  destruct body; intros H; try (eexists; reflexivity).
  contradiction H. reflexivity.
Qed.

(** C4, as the code has it. When the request of an accepted submit is
    rejected, because the backend cannot be reached or because it answers
    with a status outside 2xx, the pending message is replaced by an
    assistant message with the one fixed error text, without logs and
    without the pending flag, and [isLoading] is false again; the resulting
    world does not depend on the cause, and the next non-blank text typed
    and submitted is accepted. A 2xx response whose body is not [null] is
    no failure for the controller, whatever the shape of the body: the
    pending message is replaced by an assistant message that holds what
    [data.response] and [data.logs] read. *)
Theorem rejection_shows_fixed_error (w : World) (text : string)
    (x : HttpExchange) :
  input (app w) = text ->
  trim text <> EmptyString ->
  isLoading (app w) = false ->
  transport_failure x = true \/ error_status x = true ->
  exists w1,
    step w Submit = Some w1 /\
    step w1 (Settle (length (suspended w)) x)
      = Some (resolved w text error_message) /\
    messages (app (resolved w text error_message)) =
      messages (app w)
        ++ [ userMsg text;
             mkChatMessage assistant
               (Some (JString "Error: Failed to connect to Biomni backend."))
               undefined None ] /\
    logs error_message = undefined /\
    pending error_message = false /\
    length (messages (app (resolved w text error_message)))
      = length (messages (app w1)) /\
    isLoading (app (resolved w text error_message)) = false /\
    (forall next, trim next <> EmptyString ->
       exists w3 w4,
         step (resolved w text error_message) (Change next) = Some w3 /\
         step w3 Submit = Some w4 /\
         messages (app w4) =
           messages (app (resolved w text error_message))
             ++ [userMsg next; placeholder]) /\
    (forall st body,
       validateStatus st = true ->
       body <> JNull ->
       exists response logs,
         Get body "response" = Some response /\
         Get body "logs" = Some logs /\
         step w1 (Settle (length (suspended w)) (Responded st body))
           = Some (resolved w text
                     (mkChatMessage assistant response logs None))).
Proof.
  intros Hi Ht Hl Hx. exists (submitted w text).
  split; [apply run_accepted; assumption|].
  split; [apply step_settle_error; assumption|].
  split; [reflexivity|].
  split; [reflexivity|].
  split; [reflexivity|].
  split; [cbn; rewrite !length_app; reflexivity|].
  split; [reflexivity|].
  split.
  - intros next Hn.
    eexists. eexists.
    split; [apply step_change_idle; reflexivity|].
    split; [apply (run_accepted _ next); [reflexivity | reflexivity | exact Hn]|].
    reflexivity.
  - intros st body Hst Hb.
    destruct (Get_not_null body "response" Hb) as [response Hr].
    destruct (Get_not_null body "logs" Hb) as [logs Hlogs].
    exists response, logs. split; [exact Hr|]. split; [exact Hlogs|].
    exact (step_settle_answer w text st body response logs Hst Hr Hlogs).
Qed.

Lemma rejection_shows_fixed_error_witness :
  (exists w1,
     step (mkWorld (mkState "test" [] false) [] [] []) Submit = Some w1 /\
     step w1 (Settle 0 Unreachable)
     = Some (resolved (mkWorld (mkState "test" [] false) [] [] []) "test"
               error_message))
  /\
  (exists w1,
     step (mkWorld (mkState "test" [] false) [] [] []) Submit = Some w1 /\
     step w1 (Settle 0 (Responded 500 (JString "Internal Server Error")))
     = Some (resolved (mkWorld (mkState "test" [] false) [] [] []) "test"
               error_message)).
Proof.
  split.
  - destruct (rejection_shows_fixed_error
                (mkWorld (mkState "test" [] false) [] [] []) "test" Unreachable)
      as (w1 & H1 & H2 & _).
    + reflexivity.
    + vm_compute. discriminate.
    + reflexivity.
    + left. reflexivity.
    + exists w1. split; [exact H1 | exact H2].
  - destruct (rejection_shows_fixed_error
                (mkWorld (mkState "test" [] false) [] [] []) "test"
                (Responded 500 (JString "Internal Server Error")))
      as (w1 & H1 & H2 & _).
    + reflexivity.
    + vm_compute. discriminate.
    + reflexivity.
    + right. reflexivity.
    + exists w1. split; [exact H1 | exact H2].
Defined.

(** C4 as stated fails on a shape failure. A 2xx response whose body is an
    object without [response] and [logs] is a shape failure, yet the pending
    message is replaced by an assistant message whose content and logs are
    [undefined], not by the error message that a transport failure gives
    from the same world. *)
Lemma shape_failure_is_not_reported :
  let w := mkWorld (mkState "test" [] false) [] [] [] in
  let x := Responded 200 (JObject [("detail"%string, JString "Not Found")]) in
  shape_failure x = true /\
  step w Submit = Some (submitted w "test") /\
  step (submitted w "test") (Settle 0 x)
    = Some (resolved w "test" (mkChatMessage assistant undefined undefined None)) /\
  step (submitted w "test") (Settle 0 Unreachable)
    = Some (resolved w "test" error_message) /\
  step (submitted w "test") (Settle 0 x)
    <> step (submitted w "test") (Settle 0 Unreachable).
Proof.
  cbv zeta.
  split; [reflexivity|].
  split; [reflexivity|].
  split; [reflexivity|].
  split; [reflexivity|].
  cbn. intros H. inversion H.
Qed.

(** C9. An accepted submit hands exactly one request to the backend, the
    one carrying the submitted text. Whatever the outcome, resuming the
    handler sends nothing and leaves no handler suspended that was not there
    before the submit; on a rejection the handler runs to its end, so the
    failure is final for that request. *)
Theorem one_request_per_submit_no_retry (w : World) (text : string) :
  input (app w) = text ->
  trim text <> EmptyString ->
  isLoading (app w) = false ->
  exists w1,
    step w Submit = Some w1 /\
    outbox w1 = outbox w ++ [chat_request text] /\
    (forall s, In s (states_during w Submit) ->
               s = w1 \/ outbox s = outbox w) /\
    (forall x s,
       In s (states_during w1 (Settle (length (suspended w)) x)) ->
       outbox s = outbox w1 /\ suspended s = suspended w) /\
    (forall x w2,
       step w1 (Settle (length (suspended w)) x) = Some w2 ->
       outbox w2 = outbox w1 /\ suspended w2 = suspended w) /\
    (forall x,
       transport_failure x = true \/ error_status x = true ->
       exists w2,
         step w1 (Settle (length (suspended w)) x) = Some w2 /\
         length (outbox w2) = length (outbox w) + 1 /\
         suspended w2 = suspended w).
Proof.
  intros Hi Ht Hl. exists (submitted w text).
  split; [apply run_accepted; assumption|].
  split; [reflexivity|].
  split.
  { intros s Hs. rewrite (states_accepted w text Hi Hl Ht) in Hs. cbn in Hs.
    repeat (destruct Hs as [<-|Hs]; [auto|]). contradiction. }
  split.
  { intros x s. unfold states_during. rewrite dispatch_settle.
    destruct (settle x) as [error|response]; cbn.
    - unfold replace_with_error.
      intros Hs. repeat (destruct Hs as [<-|Hs]; [split; reflexivity|]).
      contradiction.
    - unfold replace_with_answer.
      destruct (Get (data response) "response"), (Get (data response) "logs");
        cbn; intros Hs;
        repeat (destruct Hs as [<-|Hs]; [split; reflexivity|]);
        contradiction. }
  split.
  { intros x w2. unfold step. rewrite dispatch_settle.
    destruct (settle x) as [error|response]; cbn.
    - unfold replace_with_error. intros H. inversion H. split; reflexivity.
    - unfold replace_with_answer.
      destruct (Get (data response) "response"), (Get (data response) "logs");
        cbn; intros H; inversion H; split; reflexivity. }
  intros x Hx. exists (resolved w text error_message).
  split; [apply step_settle_error; exact Hx|].
  split; [cbn; rewrite length_app; reflexivity | reflexivity].
Qed.

Lemma one_request_per_submit_no_retry_witness :
  exists w1,
    step (mkWorld (mkState "test" [] false) [] [] []) Submit = Some w1 /\
    outbox w1 = [chat_request "test"].
Proof.
  destruct (one_request_per_submit_no_retry
              (mkWorld (mkState "test" [] false) [] [] []) "test")
    as (w1 & H1 & H2 & _).
  - reflexivity.
  - vm_compute. discriminate.
  - reflexivity.
  - exists w1. split; [exact H1 | exact H2].
Defined.

(* ================================================================= *)
(** ** Pending messages *)

Lemma count_pending_app (l l' : list ChatMessage) :
  count_pending (l ++ l') = count_pending l + count_pending l'.
Proof. unfold count_pending. rewrite filter_app, length_app. reflexivity. Qed.

Lemma count_pending_zero (l : list ChatMessage) (m : ChatMessage) :
  count_pending l = 0 -> In m l -> pending m = false.
Proof.
  unfold count_pending. intros H Hin.
  destruct (pending m) eqn:E; [|reflexivity].
  assert (Hf : In m (filter pending l)) by (apply filter_In; auto).
  destruct (filter pending l); [contradiction | discriminate].
Qed.


Lemma tidy_messages_last (l : list ChatMessage) (loading : bool) :
  tidy_messages l loading ->
  forall pre m post,
    l = pre ++ m :: post -> pending m = true ->
    post = [] /\ role m = assistant /\ content m = Some (JString EmptyString).
Proof.
  intros [H|(_ & pre0 & -> & H)] pre m post E Hp.
  - rewrite (count_pending_zero l m H) in Hp; [discriminate|].
    rewrite E. apply in_elt.
  - destruct post as [|y post].
    + apply app_inj_tail in E. destruct E as [_ <-]. auto.
    + exfalso.
      destruct (@exists_last _ (y :: post)) as (q & z & Eq); [discriminate|].
      rewrite Eq in E.
      assert (E' : pre0 ++ [placeholder] = (pre ++ m :: q) ++ [z])
        by (rewrite E, <- app_assoc; reflexivity).
      apply app_inj_tail in E'. destruct E' as [-> _].
      rewrite (count_pending_zero _ m H) in Hp; [discriminate|].
      apply in_elt.
Qed.

Lemma consistent_tidy (w : World) : consistent w -> tidy w.
Proof.
  intros [(Hl & _ & H)|(Hl & _ & pre & text & sent & Hm & Hp & _)].
  - left. exact H.
  - right. split; [exact Hl|].
    exists (pre ++ [userMsg text]). split.
    + rewrite Hm, app_two. reflexivity.
    + rewrite count_pending_app, Hp. reflexivity.
Qed.

Lemma tidy_quiet (l : list ChatMessage) (b : bool) :
  count_pending l = 0 -> tidy_messages l b.
Proof. intros H. left. exact H. Qed.

Lemma count_pending_snoc (l : list ChatMessage) (m : ChatMessage) :
  count_pending l = 0 -> pending m = false -> count_pending (l ++ [m]) = 0.
Proof.
  intros H Hm. rewrite count_pending_app, H. unfold count_pending. cbn.
  rewrite Hm. reflexivity.
Qed.

(* ================================================================= *)
(** ** The invariant of the page *)

Arguments count_pending : simpl never.

Lemma submit_cases (w : World) :
  (trim (input (app w)) = EmptyString \/ isLoading (app w) = true) \/
  (trim (input (app w)) <> EmptyString /\ isLoading (app w) = false).
Proof.
  destruct (isLoading (app w)); [left; right; reflexivity|].
  destruct (trim (input (app w))).
  - left. left. reflexivity.
  - right. split; [discriminate | reflexivity].
Qed.

Lemma in_flight_suspended (w : World) (i : nat) :
  in_flight w ->
  (i = 0 /\ nth_error (suspended w) i = Some awaiting_reply /\
   remove_nth i (suspended w) = []) \/
  nth_error (suspended w) i = None.
Proof.
  intros (_ & Hs & _). rewrite Hs.
  destruct i as [|i]; [left; auto|].
  right. destruct i; reflexivity.
Qed.

Lemma step_consistent (w w' : World) (ev : Event) :
  consistent w -> step w ev = Some w' -> consistent w'.
Proof.
  intros C. destruct ev as [value| |key|i x].
  - (* Change *)
    unfold step, dispatch.
    destruct (isLoading (app w)) eqn:El; cbn; intros H; inversion H; subst.
    + exact C.
    + destruct C as [(Hl & Hs & Hp)|(Hl & _)]; [|congruence].
      left. repeat split; cbn; assumption.
  - (* Submit *)
    destruct (submit_cases w) as [G|(Ht & Hl)].
    + unfold step, dispatch. rewrite (handleSend_rejects _ _ G). cbn.
      intros H. inversion H. subst. exact C.
    + rewrite (run_accepted w _ eq_refl Hl Ht). intros H. inversion H. subst.
      destruct C as [(_ & Hs & Hp)|(Hl' & _)]; [|congruence].
      right. split; [reflexivity|]. split; [cbn; rewrite Hs; reflexivity|].
      exists (messages (app w)), (input (app w)), (outbox w).
      repeat split. exact Hp.
  - (* Toggle *)
    unfold step, dispatch. cbn. intros H. inversion H. subst.
    destruct C as [(Hl & Hs & Hp)|(Hl & Hs & Hm)]; [left|right];
      repeat split; assumption.
  - (* Settle *)
    destruct C as [(Hl & Hs & Hp)|F].
    + unfold step, dispatch. rewrite Hs. destruct i; cbn;
        intros H; inversion H; subst; left; repeat split; assumption.
    + destruct (in_flight_suspended w i F) as [(-> & Hn & Hr)|Hn];
        unfold step, dispatch; rewrite Hn; [|cbn; intros H; inversion H; subst; right; exact F].
      rewrite Hr.
      destruct F as (Hl & Hs & pre & text & sent & Hm & Hp & Ho).
      destruct (settle x) as [error|response]; cbn.
      * unfold replace_with_error. rewrite Hm, removelast_two.
        intros H. inversion H. subst. left. repeat split. cbn.
        apply count_pending_snoc; [|reflexivity].
        apply count_pending_snoc; [exact Hp | reflexivity].
      * unfold replace_with_answer. rewrite Hm, removelast_two.
        destruct (Get (data response) "response") as [r|]; [|discriminate].
        destruct (Get (data response) "logs") as [l|]; [|discriminate].
        cbn. intros H. inversion H. subst. left. repeat split. cbn.
        apply count_pending_snoc; [|reflexivity].
        apply count_pending_snoc; [exact Hp | reflexivity].
Qed.

Lemma consistent_start : consistent start.
Proof. left. repeat split. Qed.

Lemma reachable_consistent (w : World) : reachable w -> consistent w.
Proof.
  induction 1 as [|w ev w' _ IH Hs].
  - exact consistent_start.
  - exact (step_consistent w w' ev IH Hs).
Qed.

Ltac each_state H :=
  cbn in H;
  repeat (destruct H as [<-|H]; [|]);
  try contradiction.

Lemma during_tidy (w s : World) (ev : Event) :
  consistent w -> In s (states_during w ev) -> tidy s.
Proof.
  intros C Hin. pose proof (consistent_tidy w C) as T.
  destruct ev as [value| |key|i x].
  - (* Change *)
    unfold states_during, dispatch in Hin.
    destruct (isLoading (app w)) eqn:El; each_state Hin; exact T.
  - (* Submit *)
    destruct (submit_cases w) as [G|(Ht & Hl)].
    + unfold states_during, dispatch in Hin.
      rewrite (handleSend_rejects _ _ G) in Hin. each_state Hin; exact T.
    + rewrite (states_accepted w _ eq_refl Hl Ht) in Hin.
      destruct C as [(_ & Hs & Hp)|(Hl' & _)]; [|congruence].
      each_state Hin; try exact T; unfold tidy; cbn.
      * apply tidy_quiet, count_pending_snoc; [exact Hp | reflexivity].
      * apply tidy_quiet, count_pending_snoc; [exact Hp | reflexivity].
      * apply tidy_quiet, count_pending_snoc; [exact Hp | reflexivity].
      * right. split; [reflexivity|].
        exists (messages (app w) ++ [userMsg (input (app w))]). split.
        -- rewrite app_two. reflexivity.
        -- apply count_pending_snoc; [exact Hp | reflexivity].
      * right. split; [reflexivity|].
        exists (messages (app w) ++ [userMsg (input (app w))]). split.
        -- rewrite app_two. reflexivity.
        -- apply count_pending_snoc; [exact Hp | reflexivity].
  - (* Toggle *)
    unfold states_during, dispatch in Hin. each_state Hin; exact T.
  - (* Settle *)
    destruct C as [(Hl & Hs & Hp)|F].
    + unfold states_during, dispatch in Hin. rewrite Hs in Hin.
      destruct i; each_state Hin; exact T.
    + destruct (in_flight_suspended w i F) as [(-> & Hn & Hr)|Hn];
        unfold states_during, dispatch in Hin; rewrite Hn in Hin;
        [|each_state Hin; exact T].
      rewrite Hr in Hin.
      destruct F as (Hl & Hs & pre & text & sent & Hm & Hp & Ho).
      assert (Q : forall m b, pending m = false ->
                tidy_messages (removelast (messages (app w)) ++ [m]) b).
      { intros m b Hm'. rewrite Hm, removelast_two.
        apply tidy_quiet, count_pending_snoc; [|exact Hm'].
        apply count_pending_snoc; [exact Hp | reflexivity]. }
      destruct (settle x) as [error|response].
      * cbn in Hin. unfold replace_with_error in Hin.
        each_state Hin; try exact T; unfold tidy; cbn; apply Q; reflexivity.
      * cbn in Hin. unfold replace_with_answer in Hin.
        destruct (Get (data response) "response") as [r|];
          [|each_state Hin; exact T].
        destruct (Get (data response) "logs") as [l|];
          [|each_state Hin; exact T].
        each_state Hin; try exact T; unfold tidy; cbn; apply Q; reflexivity.
Qed.

Lemma in_flight_settle (w w' : World) (x : HttpExchange)
    (pre : list ChatMessage) (text : string) :
  suspended w = [awaiting_reply] ->
  messages (app w) = pre ++ [userMsg text; placeholder] ->
  step w (Settle 0 x) = Some w' ->
  isLoading (app w') = false /\ suspended w' = [] /\ outbox w' = outbox w /\
  exists m, messages (app w') = pre ++ [userMsg text; m] /\ pending m = false.
Proof.
  intros Hs Hm. unfold step, dispatch. rewrite Hs. cbn [nth_error remove_nth].
  destruct (settle x) as [error|response]; cbn.
  - unfold replace_with_error. rewrite Hm, removelast_two, app_two.
    intros H. inversion H. cbn. repeat split.
    exists error_message. split; reflexivity.
  - unfold replace_with_answer. rewrite Hm, removelast_two.
    destruct (Get (data response) "response") as [r|]; [|discriminate].
    destruct (Get (data response) "logs") as [l|]; [|discriminate].
    rewrite app_two. cbn. intros H. inversion H. cbn. repeat split.
    exists (answer r l). split; reflexivity.
Qed.


(* ================================================================= *)
(** ** C5, C10: the pending message *)




(** C10. In every state the page can reach or goes through, a pending
    message is the last one, its role is assistant and its content is
    empty. A suspended handler is the only one; the list then ends with the
    user message and the placeholder that its own submit appended, the text
    of that user message being the one of the request sent last, and
    resuming the handler replaces that placeholder and nothing else. *)
Theorem pending_is_last_and_replacement_targets_it (w : World) :
  reachable w ->
  pending_is_last_placeholder w /\
  (forall ev s, In s (states_during w ev) -> pending_is_last_placeholder s) /\
  (forall i next,
     nth_error (suspended w) i = Some next ->
     i = 0 /\ suspended w = [next] /\ next = awaiting_reply /\
     exists pre text sent,
       messages (app w) = pre ++ [userMsg text; placeholder] /\
       count_pending pre = 0 /\
       outbox w = sent ++ [chat_request text] /\
       forall x w',
         step w (Settle i x) = Some w' ->
         exists m, messages (app w') = pre ++ [userMsg text; m] /\
                   pending m = false).
Proof.
  intros R. pose proof (reachable_consistent w R) as C.
  split; [exact (tidy_messages_last _ _ (consistent_tidy w C))|].
  split; [intros ev s Hin; exact (tidy_messages_last _ _ (during_tidy w s ev C Hin))|].
  intros i next Hn.
  destruct C as [(_ & Hsus & _)|F].
  - rewrite Hsus in Hn. destruct i; discriminate.
  - destruct (in_flight_suspended w i F) as [(-> & Hn' & _)|Hn']; [|congruence].
    destruct F as (_ & Hsus & pre & text & sent & Hm & Hp & Ho).
    assert (next = awaiting_reply) as -> by congruence.
    repeat split; try assumption.
    exists pre, text, sent. repeat split; try assumption.
    intros x w' Hs.
    destruct (in_flight_settle w w' x pre text Hsus Hm Hs) as (_ & _ & _ & Hex).
    exact Hex.
Qed.

Lemma pending_is_last_and_replacement_targets_it_witness :
  pending_is_last_placeholder
    (submitted (mkWorld (mkState "hi" [] false) [] [] []) "hi").
Proof.
  apply (pending_is_last_and_replacement_targets_it
           (submitted (mkWorld (mkState "hi" [] false) [] [] []) "hi")).
  apply (reachable_step (mkWorld (mkState "hi" [] false) [] [] []) Submit);
    [|reflexivity].
  apply (reachable_step start (Change "hi")); [|reflexivity].
  apply reachable_start.
Defined.

(* ================================================================= *)
(** ** The rendered log viewer *)

Lemma append_nil_r (s : string) : (s ++ EmptyString)%string = s.
Proof. induction s as [|c s IH]; simpl; [reflexivity | rewrite IH; reflexivity]. Qed.

Lemma append_assoc (a b c : string) :
  ((a ++ b) ++ c)%string = (a ++ b ++ c)%string.
Proof. induction a as [|x a IH]; simpl; [reflexivity | rewrite IH; reflexivity]. Qed.

Lemma map_from_length {A B : Type} (f : A -> nat -> B) (l : list A) (k : nat) :
  length (map_from f k l) = length l.
Proof.
  revert k. induction l as [|x l IH]; intros k; simpl; [reflexivity|].
  rewrite IH. reflexivity.
Qed.

Lemma map_from_nth {A B : Type} (f : A -> nat -> B) (l : list A) (k i : nat)
    (x : A) :
  nth_error l i = Some x ->
  nth_error (map_from f k l) i = Some (f x (k + i)).
Proof.
  revert k i. induction l as [|y l IH]; intros k i H.
  - destruct i; discriminate.
  - destruct i as [|i]; simpl in *.
    + inversion H. rewrite Nat.add_0_r. reflexivity.
    + rewrite (IH (S k) i H). f_equal. f_equal. lia.
Qed.

Lemma select_pre_blocks (logs : list LogStep) (k : nat) :
  flat_map (select "pre") (map_from step_block k logs) =
  map (fun log => Element "pre" None [Text (JSON_stringify log 2)]) logs.
Proof.
  revert k. induction logs as [|log logs IH]; intros k; simpl; [reflexivity|].
  rewrite IH. reflexivity.
Qed.

Lemma select_button_blocks (logs : list LogStep) (k : nat) :
  flat_map (select "button") (map_from step_block k logs) = [].
Proof.
  revert k. induction logs as [|log logs IH]; intros k; simpl; [reflexivity|].
  apply IH.
Qed.

Lemma handlers_blocks (logs : list LogStep) (k : nat) :
  flat_map handlers (map_from step_block k logs) = [].
Proof.
  revert k. induction logs as [|log logs IH]; intros k; simpl; [reflexivity|].
  apply IH.
Qed.

(** The two renderings of a non-empty trace, written out. *)
Lemma LogViewer_collapsed (logs : list LogStep) :
  logs <> [] ->
  LogViewer (Some logs) false =
  Some (Element "div" None
          [ Element "button" (Some (LogViewerComponent.onClick false))
              [ Element "span" None
                  [ Element "Terminal" None []; Text "Biomni Process (";
                    Text (nat_toString (length logs)); Text " steps)" ];
                Element "ChevronRight" None [] ] ]).
Proof.
  intros H. unfold LogViewer.
  destruct logs as [|log logs]; [contradiction|]. reflexivity.
Qed.

Lemma LogViewer_expanded (logs : list LogStep) :
  logs <> [] ->
  LogViewer (Some logs) true =
  Some (Element "div" None
          [ Element "button" (Some (LogViewerComponent.onClick true))
              [ Element "span" None
                  [ Element "Terminal" None []; Text "Biomni Process (";
                    Text (nat_toString (length logs)); Text " steps)" ];
                Element "ChevronDown" None [] ];
            Element "div" None (map_from step_block 0 logs) ]).
Proof.
  intros H. unfold LogViewer.
  destruct logs as [|log logs]; [contradiction|]. reflexivity.
Qed.

(* ================================================================= *)
(** ** C6: what [LogViewer] shows *)

(** C6. Without a trace, or with an empty one, [LogViewer] renders nothing,
    whatever its local state. With a non-empty trace it renders one
    button whose text gives the number of steps; its first render, with the
    initial state, shows no block; when expanded it shows one block per
    step, in the order of the steps, the block of the step at index [i]
    headed [Step i+1] and holding the serialization of that step. *)
Theorem LogViewer_shows_one_control_and_ordered_blocks (logs : list LogStep) :
  (forall isOpen,
     LogViewer None isOpen = None /\ LogViewer (Some []) isOpen = None) /\
  (logs <> [] ->
   exists collapsed opened button button' blocks,
     isOpen_initial = false /\
     LogViewer (Some logs) isOpen_initial = Some collapsed /\
     LogViewer (Some logs) true = Some opened /\
     map textContent (select "button" collapsed)
       = [control_label (length logs)] /\
     map textContent (select "button" opened)
       = [control_label (length logs)] /\
     children collapsed = [button] /\
     select "pre" collapsed = [] /\
     children opened = [button'; Element "div" None blocks] /\
     length blocks = length logs /\
     map textContent (select "pre" opened)
       = map (fun log => JSON_stringify log 2) logs /\
     (forall i log,
        nth_error logs i = Some log ->
        nth_error blocks i =
        Some (Element "div" None
                [ Element "div" None [Text "Step "; Text (nat_toString (i + 1))];
                  Element "pre" None [Text (JSON_stringify log 2)] ]))).
Proof.
  split; [intros isOpen; split; reflexivity|].
  intros H.
  rewrite (LogViewer_expanded logs H).
  unfold isOpen_initial. rewrite (LogViewer_collapsed logs H).
  do 5 eexists.
  split; [reflexivity|].
  split; [reflexivity|].
  split; [reflexivity|].
  split.
  { cbn. rewrite !append_nil_r. reflexivity. }
  split.
  { cbn. rewrite select_button_blocks, !append_nil_r. reflexivity. }
  split; [reflexivity|].
  split; [reflexivity|].
  split; [reflexivity|].
  split; [apply map_from_length|].
  split.
  { cbn. rewrite select_pre_blocks, app_nil_r, map_map. cbn.
    apply map_ext. intros log. apply append_nil_r. }
  intros i log Hn. rewrite (map_from_nth step_block logs 0 i log Hn).
  reflexivity.
Qed.

Lemma LogViewer_shows_one_control_and_ordered_blocks_witness :
  exists opened,
    LogViewer (Some [JObject [("step"%string, JString "search")];
                     JObject [("tool"%string, JString "pubmed")]]) true
      = Some opened /\
    map textContent (select "button" opened) = ["Biomni Process (2 steps)"%string] /\
    length (select "pre" opened) = 2.
Proof.
  destruct (LogViewer_shows_one_control_and_ordered_blocks
              [JObject [("step"%string, JString "search")];
               JObject [("tool"%string, JString "pubmed")]])
    as [_ H].
  destruct H as (collapsed & opened & button & button' & blocks & _ & _ & Ho & _ & Hb & _ & _ & _ & _ & Hp & _).
  - discriminate.
  - exists opened. split; [exact Ho|]. split; [exact Hb|].
    rewrite <- (length_map textContent), Hp. reflexivity.
Defined.

(* ================================================================= *)
(** ** Quoted strings *)

Lemma append_cancel (a x y : string) :
  (a ++ x)%string = (a ++ y)%string -> x = y.
Proof.
  induction a as [|c a IH]; cbn; [auto|].
  intros H. injection H as H. exact (IH H).
Qed.

Lemma append_prefix (a b x y : string) :
  (a ++ x)%string = (b ++ y)%string ->
  String.prefix a b = true \/ String.prefix b a = true.
Proof.
  revert b. induction a as [|c a IH]; intros b H.
  - left. destruct b; reflexivity.
  - destruct b as [|d b]; [right; reflexivity|].
    cbn in H. injection H as Hc H. subst d. cbn.
    destruct (Ascii.ascii_dec c c) as [_|N]; [|contradiction N; reflexivity].
    exact (IH b H).
Qed.

Lemma in_all_ascii (c : ascii) : In c all_ascii.
Proof.
  unfold all_ascii. rewrite <- (ascii_nat_embedding c).
  apply in_map, in_seq. pose proof (nat_ascii_bounded c). lia.
Qed.

Lemma quote_char_code :
  forallb
    (fun c =>
       forallb
         (fun d => Ascii.eqb c d
                   || negb (String.prefix (quote_char c) (quote_char d)))
         all_ascii)
    all_ascii = true.
Proof. vm_compute. reflexivity. Qed.

Lemma quote_char_heads :
  forallb
    (fun c =>
       match quote_char c with
       | EmptyString => false
       | String a _ => negb (Ascii.eqb a (ascii_of_nat 34))
       end)
    all_ascii = true.
Proof. vm_compute. reflexivity. Qed.

(** The escapes of two different code units never start alike. *)
Lemma quote_char_prefix_free (c d : ascii) (x y : string) :
  (quote_char c ++ x)%string = (quote_char d ++ y)%string -> c = d /\ x = y.
Proof.
  intros H.
  assert (E : c = d).
  { pose proof quote_char_code as K.
    rewrite forallb_forall in K.
    destruct (append_prefix _ _ _ _ H) as [P|P].
    - pose proof (K c (in_all_ascii c)) as Kc. rewrite forallb_forall in Kc.
      pose proof (Kc d (in_all_ascii d)) as Kcd. rewrite P in Kcd.
      rewrite orb_false_r in Kcd. apply Ascii.eqb_eq. exact Kcd.
    - pose proof (K d (in_all_ascii d)) as Kd. rewrite forallb_forall in Kd.
      pose proof (Kd c (in_all_ascii c)) as Kdc. rewrite P in Kdc.
      rewrite orb_false_r in Kdc. symmetry. apply Ascii.eqb_eq. exact Kdc. }
  subst d. split; [reflexivity|]. exact (append_cancel _ _ _ H).
Qed.

Lemma quote_char_not_dquote (c : ascii) (x y : string) :
  (dquote ++ x)%string <> (quote_char c ++ y)%string.
Proof.
  pose proof quote_char_heads as K. rewrite forallb_forall in K.
  pose proof (K c (in_all_ascii c)) as Kc.
  destruct (quote_char c) as [|a t]; [discriminate|].
  cbn. intros H. injection H as Ha _. subst a.
  rewrite Ascii.eqb_refl in Kc. discriminate.
Qed.

Lemma quote_chars_prefix_free (s s' r r' : string) :
  (quote_chars s ++ dquote ++ r)%string = (quote_chars s' ++ dquote ++ r')%string ->
  s = s' /\ r = r'.
Proof.
  revert s'. induction s as [|c s IH]; intros [|c' s'] H; cbn [quote_chars] in H.
  - split; [reflexivity|]. exact (append_cancel dquote _ _ H).
  - rewrite append_assoc in H. contradiction (quote_char_not_dquote _ _ _ H).
  - rewrite append_assoc in H. symmetry in H.
    contradiction (quote_char_not_dquote _ _ _ H).
  - rewrite !append_assoc in H.
    destruct (quote_char_prefix_free _ _ _ _ H) as [-> H'].
    destruct (IH s' H') as [-> ->]. auto.
Qed.

(** A quoted string ends where its closing quote is: two quoted strings
    followed by anything are equal only if the strings are. *)
Lemma QuoteJSONString_prefix_free (s s' r r' : string) :
  (QuoteJSONString s ++ r)%string = (QuoteJSONString s' ++ r')%string ->
  s = s' /\ r = r'.
Proof.
  unfold QuoteJSONString. rewrite !append_assoc. intros H.
  apply append_cancel in H.
  exact (quote_chars_prefix_free _ _ _ _ H).
Qed.

(* ================================================================= *)
(** ** [JSON.stringify] loses nothing but the spelling of numbers *)

Lemma quote_char_plain :
  forallb
    (fun c => negb (plain_char c)
              || String.eqb (quote_char c) (String c EmptyString))
    all_ascii = true.
Proof. vm_compute. reflexivity. Qed.

(** A key made of plain code units is printed as it is, between quotes. *)
Lemma QuoteJSONString_plain (s : string) :
  plain s = true -> QuoteJSONString s = (dquote ++ s ++ dquote)%string.
Proof.
  intros H. unfold QuoteJSONString. do 2 f_equal.
  induction s as [|c s IH]; [reflexivity|].
  cbn in H. apply andb_true_iff in H. destruct H as [Hc Hs].
  pose proof quote_char_plain as K. rewrite forallb_forall in K.
  pose proof (K c (in_all_ascii c)) as Kc. rewrite Hc in Kc. cbn in Kc.
  apply String.eqb_eq in Kc. cbn [quote_chars]. rewrite Kc, (IH Hs).
  reflexivity.
Qed.

Lemma unbroken_app (a b : string) :
  unbroken (a ++ b) = unbroken a && unbroken b.
Proof.
  induction a as [|c a IH]; cbn; [reflexivity|].
  rewrite IH, andb_assoc. reflexivity.
Qed.

Lemma unbroken_take (n : nat) (s : string) :
  unbroken s = true -> unbroken (take n s) = true.
Proof.
  revert s. induction n as [|n IH]; intros [|c s] H; cbn; try reflexivity.
  cbn in H. apply andb_true_iff in H. destruct H as [-> H]. exact (IH s H).
Qed.

Lemma unbroken_drop (n : nat) (s : string) :
  unbroken s = true -> unbroken (drop n s) = true.
Proof.
  revert s. induction n as [|n IH]; intros [|c s] H; cbn; try assumption.
  cbn in H. apply andb_true_iff in H. destruct H as [_ H]. exact (IH s H).
Qed.

Lemma unbroken_zeros (n : nat) : unbroken (zeros n) = true.
Proof. induction n as [|n IH]; [reflexivity | exact IH]. Qed.

Lemma unbroken_uint (d : Decimal.uint) :
  unbroken (NilEmpty.string_of_uint d) = true.
Proof. induction d; cbn; auto. Qed.

Lemma unbroken_integer (n : Z) : unbroken (integer_toString n) = true.
Proof.
  unfold integer_toString.
  assert (U : forall d, unbroken (NilZero.string_of_uint d) = true)
    by (intros d; destruct d; try reflexivity; apply (unbroken_uint (_ d))).
  destruct (Z.to_int n); cbn [NilZero.string_of_int]; [apply U|].
  cbn. apply U.
Qed.

(** A numeral holds no comma and no line feed. *)
Lemma unbroken_Number (x : Number) : unbroken (Number_toString x) = true.
Proof.
  destruct x as [negative|negative s n|negative]; cbn [Number_toString].
  - reflexivity.
  - pose proof (unbroken_uint (Pos.to_uint s)) as D. fold (digits s) in D.
    rewrite unbroken_app. apply andb_true_iff. split;
      [destruct negative; reflexivity|].
    destruct ((-5 <=? n)%Z && (n <=? 21)%Z).
    + destruct (Z.of_nat (String.length (digits s)) <=? n)%Z;
        [rewrite unbroken_app, D, unbroken_zeros; reflexivity|].
      destruct (0 <? n)%Z.
      * rewrite !unbroken_app, unbroken_take, unbroken_drop by exact D.
        reflexivity.
      * change ("0." ++ zeros (Z.to_nat (- n)) ++ digits s)%string
          with (String "0" (String "." (zeros (Z.to_nat (- n)) ++ digits s))).
        cbn [unbroken]. rewrite unbroken_app, D, unbroken_zeros. reflexivity.
    + assert (E : forall e, unbroken e = true ->
                  unbroken (match digits s with
                            | String c EmptyString =>
                                String c EmptyString ++ "e" ++ e
                            | _ => take 1 (digits s) ++ "."
                                     ++ drop 1 (digits s) ++ "e" ++ e
                            end)%string = true).
      { intros e He.
        assert (G : unbroken (take 1 (digits s) ++ "."
                                ++ drop 1 (digits s) ++ "e" ++ e)%string = true).
        { rewrite !unbroken_app, unbroken_take, unbroken_drop by exact D.
          rewrite He. reflexivity. }
        destruct (digits s) as [|c [|c' t]] eqn:Ed; exact G. }
      apply E. rewrite unbroken_app, unbroken_integer.
      destruct (n <? 0)%Z; reflexivity.
  - destruct negative; reflexivity.
Qed.

(** Two texts without comma and line feed, each followed by a delimited
    rest, are equal when the whole is. *)
Lemma unbroken_split (a a' r r' : string) :
  unbroken a = true -> unbroken a' = true ->
  delimited r = true -> delimited r' = true ->
  (a ++ r)%string = (a' ++ r')%string -> a = a' /\ r = r'.
Proof.
  revert a'. induction a as [|c a IH]; intros [|c' a'] Ha Ha' Hr Hr' H;
    cbn in H.
  - auto.
  - subst r. cbn in Ha', Hr. rewrite Hr in Ha'. discriminate.
  - subst r'. cbn in Ha, Hr'. rewrite Hr' in Ha. discriminate.
  - injection H as -> H. cbn in Ha, Ha'.
    apply andb_true_iff in Ha, Ha'. destruct Ha as [_ Ha], Ha' as [_ Ha'].
    destruct (IH a' Ha Ha' Hr Hr' H) as [-> ->]. auto.
Qed.

Lemma digits_head (s : positive) :
  exists c t,
    digits s = String c t /\
    In c ["0"; "1"; "2"; "3"; "4"; "5"; "6"; "7"; "8"; "9"]%char.
Proof.
  unfold digits. pose proof (DecimalPos.Unsigned.to_uint_nonnil s) as N.
  destruct (Pos.to_uint s); try contradiction;
    do 2 eexists; (split; [reflexivity|]); cbn; auto 12.
Qed.

(** A numeral starts with a digit or with the minus sign. *)
Lemma Number_toString_head (x : Number) :
  isFinite x = true ->
  exists c t,
    Number_toString x = String c t /\
    In c ["-"; "0"; "1"; "2"; "3"; "4"; "5"; "6"; "7"; "8"; "9"]%char.
Proof.
  destruct x as [negative|negative s n|negative]; intros F;
    [| |discriminate F].
  - do 2 eexists. split; [reflexivity|]. cbn. auto.
  - cbn [Number_toString].
    destruct negative;
      [do 2 eexists; split; [reflexivity|]; cbn; auto|].
    cbn [minus_sign append].
    destruct (digits_head s) as (c & t & Ed & Hc).
    assert (Hc' : In c ["-"; "0"; "1"; "2"; "3"; "4"; "5"; "6"; "7"; "8"; "9"]%char)
      by (right; exact Hc).
    rewrite Ed.
    destruct ((-5 <=? n)%Z && (n <=? 21)%Z).
    + destruct (Z.of_nat (String.length (String c t)) <=? n)%Z;
        [do 2 eexists; split; [reflexivity | exact Hc']|].
      destruct (0 <? n)%Z eqn:Hn.
      * apply Z.ltb_lt in Hn.
        destruct (Z.to_nat n) as [|m] eqn:Em; [lia|].
        do 2 eexists. split; [reflexivity | exact Hc'].
      * do 2 eexists. split; [reflexivity|]. cbn. auto.
    + destruct t; do 2 eexists; (split; [reflexivity | exact Hc']).
Qed.

(** The first character of a serialization tells the kind of the value. *)
Lemma Serialize_head (gap indent : string) (v : Json) :
  exists c t,
    SerializeJSONProperty gap indent v = String c t /\
    match kind v with
    | 0 => c = "n"%char
    | 1 => c = "t"%char \/ c = "f"%char
    | 2 => In c ["-"; "0"; "1"; "2"; "3"; "4"; "5"; "6"; "7"; "8"; "9"]%char
    | 3 => c = ascii_of_nat 34
    | 4 => c = "["%char
    | _ => c = "{"%char
    end.
Proof.
  destruct v as [|b|x|s|elems|props]; cbn [kind SerializeJSONProperty].
  - do 2 eexists. split; reflexivity.
  - destruct b; do 2 eexists; (split; [reflexivity|]); auto.
  - destruct (isFinite x) eqn:F.
    + exact (Number_toString_head x F).
    + do 2 eexists. split; reflexivity.
  - do 2 eexists. split; reflexivity.
  - destruct elems; do 2 eexists; split; reflexivity.
  - destruct props; do 2 eexists; split; reflexivity.
Qed.

Lemma heads_differ (gap indent : string) (v v' : Json) (r r' : string) :
  kind v <> kind v' ->
  (SerializeJSONProperty gap indent v ++ r)%string
  <> (SerializeJSONProperty gap indent v' ++ r')%string.
Proof.
  destruct (Serialize_head gap indent v) as (c & t & E & K).
  destruct (Serialize_head gap indent v') as (c' & t' & E' & K').
  rewrite E, E'. cbn. intros D H. injection H as Hc _. subst c'.
  apply D. clear D E E'.
  destruct v as [|b|x|s|elems|props], v' as [|b'|x'|s'|elems'|props'];
    cbn [kind] in *;
    try destruct (isFinite x); try destruct (isFinite x');
    try reflexivity; exfalso; cbn in K, K'; intuition (subst; discriminate).
Qed.

(** Induction on a [Json] with the hypothesis for every element of an array
    and every value of an object. *)
Lemma Json_nested_ind (P : Json -> Prop) :
  P JNull ->
  (forall b, P (JBool b)) ->
  (forall x, P (JNumber x)) ->
  (forall s, P (JString s)) ->
  (forall elems, Forall P elems -> P (JArray elems)) ->
  (forall props, Forall (fun p => P (snd p)) props -> P (JObject props)) ->
  forall v, P v.
Proof.
  intros Hnull Hbool Hnum Hstr Harr Hobj.
  fix IH 1. intros [|b|x|s|elems|props].
  - exact Hnull.
  - apply Hbool.
  - apply Hnum.
  - apply Hstr.
  - apply Harr. induction elems as [|y elems IHl]; constructor.
    + apply IH.
    + exact IHl.
  - apply Hobj. induction props as [|[k y] props IHl]; constructor.
    + apply IH.
    + exact IHl.
Qed.

Lemma Serialize_array (gap indent : string) (x : Json) (elems : list Json) :
  SerializeJSONProperty gap indent (JArray (x :: elems)) =
  ("[" ++ LF ++ (indent ++ gap)
     ++ join ("," ++ LF ++ (indent ++ gap))
          (map (SerializeJSONProperty gap (indent ++ gap)) (x :: elems))
     ++ LF ++ indent ++ "]")%string.
Proof. reflexivity. Qed.

Lemma Serialize_object (gap indent : string) (p : string * Json)
    (props : list (string * Json)) :
  SerializeJSONProperty gap indent (JObject (p :: props)) =
  ("{" ++ LF ++ (indent ++ gap)
     ++ join ("," ++ LF ++ (indent ++ gap))
          (map (fun p => (QuoteJSONString (fst p) ++ ": "
                            ++ SerializeJSONProperty gap (indent ++ gap) (snd p))%string)
             (p :: props))
     ++ LF ++ indent ++ "}")%string.
Proof.
  cbn [SerializeJSONProperty]. do 4 f_equal.
  apply (f_equal (join _)). apply map_ext. intros [k x]. reflexivity.
Qed.

(** Two joined lists of parts, each followed by a line feed, are equal only
    if the lists are related part by part, when a part ends where a
    delimiter follows. *)
Lemma join_related {A : Type} (f : A -> string) (R : A -> A -> Prop)
    (i : string) (l l' : list A) (t t' : string) :
  Forall (fun x => forall y r r',
            delimited r = true -> delimited r' = true ->
            (f x ++ r)%string = (f y ++ r')%string -> R x y /\ r = r') l ->
  l <> [] -> l' <> [] ->
  (join ("," ++ LF ++ i) (map f l) ++ LF ++ t)%string
  = (join ("," ++ LF ++ i) (map f l') ++ LF ++ t')%string ->
  Forall2 R l l' /\ t = t'.
Proof.
  intros HP. revert l'.
  induction HP as [|x l Hx _ IH]; intros l' Hl Hl' H; [contradiction|].
  destruct l' as [|y l']; [contradiction|].
  destruct l as [|x2 l], l' as [|y2 l']; cbn [map join] in H;
    rewrite ?append_assoc in H.
  - apply Hx in H; [|reflexivity|reflexivity]. destruct H as [Rxy H'].
    split; [repeat constructor; exact Rxy|]. exact (append_cancel LF _ _ H').
  - apply Hx in H; [|reflexivity|reflexivity]. destruct H as [_ H'].
    discriminate H'.
  - apply Hx in H; [|reflexivity|reflexivity]. destruct H as [_ H'].
    discriminate H'.
  - apply Hx in H; [|reflexivity|reflexivity]. destruct H as [Rxy H'].
    apply (append_cancel ("," ++ LF ++ i)) in H'.
    destruct (IH (y2 :: l') ltac:(discriminate) ltac:(discriminate) H')
      as [E ->].
    split; [constructor; assumption | reflexivity].
Qed.

Ltac other_kind H :=
  match type of H with
  | (SerializeJSONProperty ?g ?i ?a ++ ?r
     = SerializeJSONProperty _ _ ?b ++ ?r')%string =>
      exfalso; refine (heads_differ g i a b r r' _ H);
      cbn [kind]; try match goal with F : isFinite _ = _ |- _ => rewrite F end;
      try match goal with F : isFinite _ = _ |- _ => rewrite F end;
      discriminate
  end.

(** A serialization ends where a delimiter follows: two serializations at
    the same indentation, each followed by a delimited rest, are equal only
    if the values differ at most in the spelling of numbers. *)
Lemma Serialize_prefix_free (v : Json) :
  forall gap indent v' r r',
    delimited r = true -> delimited r' = true ->
    (SerializeJSONProperty gap indent v ++ r)%string
    = (SerializeJSONProperty gap indent v' ++ r')%string ->
    same_print v v' /\ r = r'.
Proof.
  induction v as [|b|x|s|elems IH|props IH] using Json_nested_ind;
    intros gap indent v' r r' Hr Hr' H;
    destruct v' as [|b'|x'|s'|elems'|props'];
    try (destruct (isFinite x) eqn:F);
    try (destruct (isFinite x') eqn:F');
    try (other_kind H; fail).
  - cbn in H. injection H as H. split; [constructor | exact H].
  - cbn [SerializeJSONProperty] in H. rewrite F' in H. cbn in H.
    injection H as H. split; [constructor; exact F' | exact H].
  - destruct b, b'; cbn in H; try discriminate H; injection H as H;
      (split; [constructor | exact H]).
  - cbn [SerializeJSONProperty] in H. rewrite F in H. cbn in H.
    injection H as H. split; [constructor; exact F | exact H].
  - cbn [SerializeJSONProperty] in H. rewrite F, F' in H.
    destruct (unbroken_split _ _ _ _ (unbroken_Number x) (unbroken_Number x')
                Hr Hr' H) as [E ->].
    split; [|reflexivity]. constructor. unfold Number_text. rewrite F, F'.
    exact E.
  - cbn [SerializeJSONProperty] in H. rewrite F, F' in H.
    apply (append_cancel "null") in H.
    split; [|exact H]. constructor. unfold Number_text. rewrite F, F'.
    reflexivity.
  - cbn [SerializeJSONProperty] in H.
    destruct (QuoteJSONString_prefix_free _ _ _ _ H) as [-> ->].
    split; [constructor | reflexivity].
  - destruct elems as [|x elems], elems' as [|y elems'].
    + cbn in H. injection H as H. split; [repeat constructor | exact H].
    + rewrite Serialize_array in H. cbn in H. discriminate H.
    + rewrite Serialize_array in H. cbn in H. discriminate H.
    + rewrite !Serialize_array, !append_assoc in H.
      apply (append_cancel "[") in H. apply (append_cancel LF) in H.
      apply (append_cancel indent) in H. apply (append_cancel gap) in H.
      apply (join_related
               (SerializeJSONProperty gap (indent ++ gap)) same_print
               (indent ++ gap)) in H;
        [|revert IH; apply Forall_impl; intros a Pa y' q q' Hq Hq' Hy;
          exact (Pa gap (indent ++ gap)%string y' q q' Hq Hq' Hy)
         |discriminate|discriminate].
      destruct H as [E H]. apply (append_cancel indent) in H.
      apply (append_cancel "]") in H.
      split; [constructor; exact E | exact H].
  - destruct props as [|p props], props' as [|p' props'].
    + cbn in H. injection H as H. split; [repeat constructor | exact H].
    + rewrite Serialize_object in H. cbn in H. discriminate H.
    + rewrite Serialize_object in H. cbn in H. discriminate H.
    + rewrite !Serialize_object, !append_assoc in H.
      apply (append_cancel "{") in H. apply (append_cancel LF) in H.
      apply (append_cancel indent) in H. apply (append_cancel gap) in H.
      apply (join_related
               (fun p => (QuoteJSONString (fst p) ++ ": "
                            ++ SerializeJSONProperty gap (indent ++ gap) (snd p))%string)
               (fun p q => fst p = fst q /\ same_print (snd p) (snd q))
               (indent ++ gap)) in H;
        [|revert IH; apply Forall_impl; intros [k a] Pa [k' a'] q q' Hq Hq' Hy;
          cbn [fst snd] in *; rewrite !append_assoc in Hy;
          destruct (QuoteJSONString_prefix_free _ _ _ _ Hy) as [-> Hy'];
          apply (append_cancel ": ") in Hy';
          destruct (Pa gap (indent ++ gap)%string a' q q' Hq Hq' Hy') as [S ->];
          auto
         |discriminate|discriminate].
      destruct H as [E H]. apply (append_cancel indent) in H.
      apply (append_cancel "}") in H.
      split; [constructor; exact E | exact H].
Qed.

Lemma JSON_stringify_same_print (v v' : Json) (space : nat) :
  JSON_stringify v space = JSON_stringify v' space -> same_print v v'.
Proof.
  unfold JSON_stringify. intros H.
  apply (Serialize_prefix_free v (spaces (Nat.min space 10)) EmptyString v'
           EmptyString EmptyString eq_refl eq_refl).
  rewrite !append_nil_r. exact H.
Qed.

(** Records that are printed alike have the same keys in the same order. *)
Lemma same_print_keys (props : list (string * Json)) (v : Json) :
  same_print (JObject props) v ->
  exists props', v = JObject props' /\ map fst props = map fst props'.
Proof.
  intros H. inversion H as [| | | | | | |p p' F]; subst.
  exists p'. split; [reflexivity|].
  clear H. induction F as [|a b l l' [E _] _ IH]; [reflexivity|].
  cbn. rewrite E, IH. reflexivity.
Qed.

(* ================================================================= *)
(** ** C7: the serialization keeps every key *)

Lemma occurs_in_refl (s : string) : occurs_in s s.
Proof. exists EmptyString, EmptyString. cbn. rewrite append_nil_r. reflexivity. Qed.

Lemma occurs_in_prepend (s t a : string) :
  occurs_in s t -> occurs_in s (a ++ t)%string.
Proof.
  intros (before & after & ->). exists (a ++ before)%string, after.
  rewrite append_assoc. reflexivity.
Qed.

Lemma occurs_in_append (s t b : string) :
  occurs_in s t -> occurs_in s (t ++ b)%string.
Proof.
  intros (before & after & ->). exists before, (after ++ b)%string.
  rewrite !append_assoc. reflexivity.
Qed.

Lemma occurs_in_join (sep p : string) (parts : list string) :
  In p parts -> occurs_in p (join sep parts).
Proof.
  induction parts as [|q parts IH]; [contradiction|].
  intros [->|Hin].
  - destruct parts as [|r parts]; cbn [join].
    + apply occurs_in_refl.
    + apply occurs_in_append, occurs_in_refl.
  - destruct parts as [|r parts]; [contradiction|]. cbn [join].
    apply occurs_in_prepend, occurs_in_prepend, IH, Hin.
Qed.

(** A member of an object occurs in the serialization of the object, key
    and value together. *)
Lemma member_occurs (gap indent k : string) (v : Json)
    (props : list (string * Json)) :
  In (k, v) props ->
  occurs_in
    (QuoteJSONString k ++ ": " ++ SerializeJSONProperty gap (indent ++ gap) v)%string
    (SerializeJSONProperty gap indent (JObject props)).
Proof.
  intros Hin. destruct props as [|p props]; [contradiction|].
  cbn [SerializeJSONProperty].
  apply occurs_in_prepend, occurs_in_prepend, occurs_in_prepend.
  apply occurs_in_append.
  apply occurs_in_join.
  apply (in_map (fun p => match p with
                          | (k, x) =>
                              (QuoteJSONString k ++ ": "
                                 ++ SerializeJSONProperty gap (indent ++ gap) x)%string
                          end) _ _ Hin).
Qed.

Lemma occurs_in_trans (s t u : string) :
  occurs_in s t -> occurs_in t u -> occurs_in s u.
Proof.
  intros H (before & after & ->).
  apply occurs_in_prepend, occurs_in_append, H.
Qed.

(** C7. Whatever keys the record of a step holds, the block that the
    expanded view shows for that step contains each of them, quoted, followed
    by the serialization of its value: the block is [JSON.stringify] of the
    whole record and no member is left out. The quoted form stands for one
    key only, a key of plain characters is there letter by letter between
    its quotes, and the block settles the keys of the record: whatever
    value is printed as the same block is a record with the same keys in
    the same order. *)
Theorem LogViewer_block_contains_every_key
    (logs : list LogStep) (i : nat) (props : list (string * Json))
    (k : string) (v : Json) :
  nth_error logs i = Some (JObject props) ->
  In (k, v) props ->
  exists opened block,
    LogViewer (Some logs) true = Some opened /\
    nth_error (select "pre" opened) i = Some block /\
    textContent block = JSON_stringify (JObject props) 2 /\
    occurs_in (QuoteJSONString k) (textContent block) /\
    occurs_in
      (QuoteJSONString k ++ ": " ++ SerializeJSONProperty "  " "  " v)%string
      (textContent block) /\
    (forall k', QuoteJSONString k' = QuoteJSONString k -> k' = k) /\
    (plain k = true ->
     occurs_in (dquote ++ k ++ dquote)%string (textContent block)) /\
    (forall record,
       JSON_stringify record 2 = textContent block ->
       exists props',
         record = JObject props' /\ map fst props' = map fst props).
Proof.
  intros Hn Hin.
  assert (Hne : logs <> []) by (intros ->; destruct i; discriminate).
  rewrite (LogViewer_expanded logs Hne).
  do 2 eexists. split; [reflexivity|].
  split.
  { cbn. rewrite select_pre_blocks, app_nil_r.
    apply map_nth_error. exact Hn. }
  cbn [textContent fold_right]. rewrite append_nil_r.
  split; [reflexivity|].
  assert (M : occurs_in
                (QuoteJSONString k ++ ": " ++ SerializeJSONProperty "  " "  " v)%string
                (JSON_stringify (JObject props) 2))
    by exact (member_occurs (spaces 2) EmptyString k v props Hin).
  assert (Q : occurs_in (QuoteJSONString k) (JSON_stringify (JObject props) 2))
    by exact (occurs_in_trans _ _ _
                (occurs_in_append _ _ _ (occurs_in_refl _)) M).
  split; [exact Q|]. split; [exact M|]. split; [|split].
  - intros k' E.
    apply (QuoteJSONString_prefix_free k' k EmptyString EmptyString).
    rewrite !append_nil_r. exact E.
  - intros Hp. rewrite <- (QuoteJSONString_plain k Hp). exact Q.
  - intros record E. symmetry in E.
    destruct (same_print_keys props record (JSON_stringify_same_print _ _ 2 E))
      as (props' & -> & Hk).
    exists props'. split; [reflexivity | symmetry; exact Hk].
Qed.

Lemma LogViewer_block_contains_every_key_witness :
  exists opened block,
    LogViewer (Some [JObject [("step"%string, JString "search");
                              ("elapsed_ms"%string, JNumber (Finite false 125 2))]])
      true
      = Some opened /\
    nth_error (select "pre" opened) 0 = Some block /\
    occurs_in (QuoteJSONString "elapsed_ms") (textContent block) /\
    occurs_in (dquote ++ "elapsed_ms" ++ dquote)%string (textContent block).
Proof.
  destruct (LogViewer_block_contains_every_key
              [JObject [("step"%string, JString "search");
                        ("elapsed_ms"%string, JNumber (Finite false 125 2))]]
              0
              [("step"%string, JString "search");
               ("elapsed_ms"%string, JNumber (Finite false 125 2))]
              "elapsed_ms" (JNumber (Finite false 125 2)))
    as (opened & block & Ho & Hb & _ & Hk & _ & _ & Hp & _).
  - reflexivity.
  - right. left. reflexivity.
  - exists opened, block. split; [exact Ho|]. split; [exact Hb|].
    split; [exact Hk|]. apply Hp. reflexivity.
Defined.

(* ================================================================= *)
(** ** C8: rendering is a function, the toggle is local *)

Lemma isOpen_after_set (key : nat) (b : bool) (keys : list nat) :
  existsb (Nat.eqb key) (set_isOpen key b keys) = b.
Proof.
  unfold set_isOpen.
  assert (F : existsb (Nat.eqb key)
                (filter (fun k => negb (Nat.eqb key k)) keys) = false).
  { induction keys as [|k keys IH]; [reflexivity|]. cbn.
    destruct (Nat.eqb key k) eqn:E; cbn; [exact IH|].
    rewrite E. exact IH. }
  destruct b; cbn; [rewrite Nat.eqb_refl; reflexivity | exact F].
Qed.

Lemma isOpen_other_after_set (key k : nat) (b : bool) (keys : list nat) :
  k <> key ->
  existsb (Nat.eqb k) (set_isOpen key b keys) = existsb (Nat.eqb k) keys.
Proof.
  intros Hk. unfold set_isOpen.
  assert (F : existsb (Nat.eqb k)
                (filter (fun j => negb (Nat.eqb key j)) keys)
              = existsb (Nat.eqb k) keys).
  { induction keys as [|j keys IH]; [reflexivity|]. cbn.
    destruct (Nat.eqb key j) eqn:E; cbn.
    - apply Nat.eqb_eq in E. subst j.
      apply Nat.eqb_neq in Hk. rewrite Hk. exact IH.
    - rewrite IH. reflexivity. }
  destruct b; cbn; [|exact F].
  apply Nat.eqb_neq in Hk. rewrite Hk. exact F.
Qed.

Lemma LogViewer_handlers (logs : option (list LogStep)) (isOpen : bool)
    (root : Node) :
  LogViewer logs isOpen = Some root ->
  handlers root = [LogViewerComponent.onClick isOpen].
Proof.
  unfold LogViewer. destruct logs as [logs|]; [|discriminate].
  destruct logs as [|log logs]; [discriminate|].
  destruct isOpen; cbn [Nat.eqb length]; intros H; inversion H; cbn.
  - unfold Array_map. cbn.
    change (fun (log0 : LogStep) (idx : nat) =>
              Element "div" None
                [Element "div" None [Text "Step "; Text (nat_toString (idx + 1))];
                 Element "pre" None [Text (JSON_stringify log0 2)]])
      with step_block.
    rewrite handlers_blocks. reflexivity.
  - reflexivity.
Qed.

(** C8. The rendering is a function of the trace and of the expanded flag
    alone: in two worlds where the flag of the viewer is the same the same
    trace renders the same. The only handler in the rendered tree is the
    toggle, which performs one [setIsOpen]; a click on it flips the flag of
    that viewer and changes neither the application state (the messages and
    their traces, the input, [isLoading]), nor the flag of another viewer,
    nor the requests sent, nor the suspended handlers; a second click brings
    the first rendering back. *)
Theorem LogViewer_render_pure_and_toggle_local
    (w : World) (key : nat) (logs : option (list LogStep)) :
  (forall w2 key2,
     isOpen w2 key2 = isOpen w key ->
     LogViewer logs (isOpen w2 key2) = LogViewer logs (isOpen w key)) /\
  (forall root,
     LogViewer logs (isOpen w key) = Some root ->
     handlers root = [Do (SetIsOpen (negb (isOpen w key))) Done]) /\
  exists w' w'',
    step w (Toggle key) = Some w' /\
    states_during w (Toggle key) = [w; w'] /\
    app w' = app w /\
    outbox w' = outbox w /\
    suspended w' = suspended w /\
    isOpen w' key = negb (isOpen w key) /\
    (forall k, k <> key -> isOpen w' k = isOpen w k) /\
    step w' (Toggle key) = Some w'' /\
    app w'' = app w /\
    LogViewer logs (isOpen w'' key) = LogViewer logs (isOpen w key).
Proof.
  split; [intros w2 key2 ->; reflexivity|].
  split; [intros root H; exact (LogViewer_handlers logs _ root H)|].
  do 2 eexists.
  split; [reflexivity|].
  split; [reflexivity|].
  split; [reflexivity|].
  split; [reflexivity|].
  split; [reflexivity|].
  split; [apply isOpen_after_set|].
  split; [intros k Hk; apply isOpen_other_after_set; exact Hk|].
  split; [reflexivity|].
  split; [reflexivity|].
  unfold isOpen at 1. cbn [expanded].
  rewrite isOpen_after_set.
  unfold isOpen at 1. cbn [expanded].
  rewrite isOpen_after_set, negb_involutive. reflexivity.
Qed.

Lemma LogViewer_render_pure_and_toggle_local_witness :
  exists w',
    step start (Toggle 1) = Some w' /\
    app w' = app start /\
    isOpen w' 1 = true.
Proof.
  destruct (LogViewer_render_pure_and_toggle_local start 1
              (Some [JObject [("step"%string, JString "search")]]))
    as (_ & _ & w' & w'' & Hs & _ & Ha & _ & _ & Ho & _).
  exists w'. split; [exact Hs|]. split; [exact Ha | exact Ho].
Defined.

(* ================================================================= *)
(** ** What one event does to the transcript *)

Lemma app_inj_two {A : Type} (l l' : list A) (a b a' b' : A) :
  l ++ [a; b] = l' ++ [a'; b'] -> l = l' /\ a = a' /\ b = b'.
Proof.
  rewrite <- !app_two. intros H.
  apply app_inj_tail in H. destruct H as [H ->].
  apply app_inj_tail in H. destruct H as [-> ->]. auto.
Qed.

(** An event leaves the messages alone, or is an accepted submit, or
    resumes the handler in flight and replaces the placeholder. *)
Lemma step_cases (w w' : World) (ev : Event) :
  consistent w -> step w ev = Some w' ->
  (messages (app w') = messages (app w) /\ outbox w' = outbox w /\
   isLoading (app w') = isLoading (app w) /\ suspended w' = suspended w /\
   (isLoading (app w) = true -> input (app w') = input (app w)))
  \/
  (isLoading (app w) = false /\ trim (input (app w)) <> EmptyString /\
   w' = submitted w (input (app w)))
  \/
  (exists pre text m,
     messages (app w) = pre ++ [userMsg text; placeholder] /\
     messages (app w') = pre ++ [userMsg text; m] /\
     pending m = false /\ role m = assistant /\
     outbox w' = outbox w /\ isLoading (app w') = false /\
     suspended w' = [] /\ input (app w') = input (app w)).
Proof.
  intros C. destruct ev as [value| |key|i x].
  - unfold step, dispatch.
    destruct (isLoading (app w)) eqn:El; cbn; intros H; inversion H; subst;
      left; cbn; repeat split; auto; discriminate.
  - destruct (submit_cases w) as [G|(Ht & Hl)].
    + unfold step, dispatch. rewrite (handleSend_rejects _ _ G). cbn.
      intros H. inversion H. subst. left. repeat split; auto.
    + rewrite (run_accepted w _ eq_refl Hl Ht). intros H. inversion H.
      right. left. auto.
  - unfold step, dispatch. cbn. intros H. inversion H. subst.
    left. cbn. repeat split; auto.
  - destruct C as [(Hl & Hs & Hp)|F].
    + unfold step, dispatch. rewrite Hs.
      destruct i; cbn; intros H; inversion H; subst; left; repeat split; auto.
    + destruct (in_flight_suspended w i F) as [(-> & Hn & Hr)|Hn];
        unfold step, dispatch; rewrite Hn;
        [|cbn; intros H; inversion H; subst; left; repeat split; auto].
      rewrite Hr.
      destruct F as (Hl & Hs & pre & text & sent & Hm & Hp & Ho).
      destruct (settle x) as [error|response]; cbn.
      * unfold replace_with_error. rewrite Hm, removelast_two, app_two.
        intros H. inversion H. right. right.
        exists pre, text, error_message. cbn. repeat split; auto.
      * unfold replace_with_answer. rewrite Hm, removelast_two.
        destruct (Get (data response) "response") as [r|]; [|discriminate].
        destruct (Get (data response) "logs") as [l|]; [|discriminate].
        rewrite app_two. cbn. intros H. inversion H. right. right.
        exists pre, text, (answer r l). cbn. repeat split; auto.
Qed.

Lemma exchanges_last (pre : list ChatMessage) (a b : ChatMessage)
    (sent : list string) :
  exchanges (pre ++ [a; b]) sent ->
  exists sent' text,
    sent = sent' ++ [text] /\ a = userMsg text /\ exchanges pre sent' /\
    trim text <> EmptyString /\ role b = assistant.
Proof.
  intros H. remember (pre ++ [a; b]) as L eqn:E.
  destruct H as [|l sent' text m Hl Ht Hr].
  - destruct pre; discriminate.
  - apply app_inj_two in E. destruct E as (E1 & E2 & E3). subst.
    exists sent', text. auto.
Qed.

(** The invariant that ties the transcript to the requests sent. *)
Lemma reachable_exchanges (w : World) :
  reachable w ->
  exists sent,
    exchanges (messages (app w)) sent /\ outbox w = map chat_request sent.
Proof.
  induction 1 as [|w ev w' R (sent & He & Ho) Hs].
  - exists []. split; [constructor | reflexivity].
  - pose proof (reachable_consistent w R) as C.
    destruct (step_cases w w' ev C Hs)
      as [(Hm & Hob & _)|[(Hl & Ht & ->)|(pre & text & m & Hm & Hm' & Hp & Hr & Hob & _)]].
    + exists sent. rewrite Hm, Hob. auto.
    + exists (sent ++ [input (app w)]). split.
      * cbn. constructor; auto.
      * cbn. rewrite Ho, map_app. reflexivity.
    + rewrite Hm in He.
      destruct (exchanges_last _ _ _ _ He) as (sent' & text' & -> & Hu & He' & Ht & _).
      exists (sent' ++ [text']). split.
      * rewrite Hm'.
        assert (text = text') as -> by (unfold userMsg in Hu; congruence).
        constructor; auto.
      * rewrite Hob. exact Ho.
Qed.

Lemma exchanges_length (l : list ChatMessage) (sent : list string) :
  exchanges l sent -> length l = 2 * length sent.
Proof.
  induction 1 as [|l sent text m _ IH _ _]; [reflexivity|].
  rewrite !length_app, IH. cbn. lia.
Qed.

Lemma exchanges_roles (l : list ChatMessage) (sent : list string) :
  exchanges l sent ->
  forall i m, nth_error l i = Some m ->
              role m = if Nat.even i then user else assistant.
Proof.
  induction 1 as [|l sent text m He IH _ Hr]; intros i x Hn.
  - destruct i; discriminate.
  - pose proof (exchanges_length l sent He) as Hlen.
    destruct (Nat.lt_ge_cases i (length l)) as [Hlt|Hge].
    + rewrite nth_error_app1 in Hn by exact Hlt. exact (IH i x Hn).
    + rewrite nth_error_app2 in Hn by exact Hge.
      replace i with (i - length l + 2 * length sent) by lia.
      rewrite Nat.even_add_mul_2.
      destruct (i - length l) as [|[|k]]; cbn in Hn.
      * inversion Hn. reflexivity.
      * inversion Hn. subst x. exact Hr.
      * destruct k; discriminate.
Qed.

Lemma exchanges_user_texts (l : list ChatMessage) (sent : list string) :
  exchanges l sent ->
  user_texts l = map (fun text => Some (JString text)) sent.
Proof.
  induction 1 as [|l sent text m _ IH _ Hr]; [reflexivity|].
  unfold user_texts in *. rewrite filter_app, !map_app, IH. cbn.
  unfold is_user at 1. rewrite Hr. reflexivity.
Qed.

Lemma exchanges_nonblank (l : list ChatMessage) (sent : list string) :
  exchanges l sent -> Forall (fun text => trim text <> EmptyString) sent.
Proof.
  induction 1 as [|l sent text m _ IH Ht _]; [constructor|].
  apply Forall_app. split; [exact IH | constructor; [exact Ht | constructor]].
Qed.

Lemma reaches_reachable (w w' : World) :
  reachable w -> reaches w w' -> reachable w'.
Proof.
  intros R H. induction H as [w|w ev w' w'' Hs _ IH]; [exact R|].
  apply IH. exact (reachable_step w ev w' R Hs).
Qed.

Lemma step_keeps_finished (w w' : World) (ev : Event) :
  consistent w -> step w ev = Some w' ->
  length (messages (app w)) <= length (messages (app w')) /\
  forall i m,
    nth_error (messages (app w)) i = Some m -> pending m = false ->
    nth_error (messages (app w')) i = Some m.
Proof.
  intros C Hs.
  destruct (step_cases w w' ev C Hs)
    as [(Hm & _)|[(_ & _ & ->)|(pre & text & m' & Hm & Hm' & _)]].
  - rewrite Hm. auto.
  - cbn. rewrite length_app. split; [lia|].
    intros i m Hn _. rewrite nth_error_app1; [exact Hn|].
    apply nth_error_Some. congruence.
  - rewrite Hm, Hm', !length_app. split; [cbn; lia|].
    intros i m. rewrite <- !app_two. intros Hn Hp.
    destruct (Nat.lt_ge_cases i (length (pre ++ [userMsg text]))) as [Hlt|Hge].
    + rewrite nth_error_app1 in Hn by exact Hlt.
      rewrite nth_error_app1 by exact Hlt. exact Hn.
    + rewrite nth_error_app2 in Hn by exact Hge.
      destruct (i - length (pre ++ [userMsg text])) as [|k]; cbn in Hn.
      * inversion Hn. subst m. discriminate.
      * destruct k; discriminate.
Qed.

Lemma reachable_loading_input (w : World) :
  reachable w -> isLoading (app w) = true -> input (app w) = EmptyString.
Proof.
  induction 1 as [|w ev w' R IH Hs]; [discriminate|].
  pose proof (reachable_consistent w R) as C.
  destruct (step_cases w w' ev C Hs)
    as [(_ & _ & Hl & _ & Hi)|[(_ & _ & ->)|(pre & text & m & _ & _ & _ & _ & _ & Hl & _)]].
  - rewrite Hl. intros H. rewrite (Hi H). exact (IH H).
  - reflexivity.
  - congruence.
Qed.

(* ================================================================= *)
(** ** X1-X5: properties of whole runs of the controller *)

(** X1. Whatever events follow, a message that is not pending keeps its
    place and its content: the transcript never gets shorter and only the
    pending placeholder is ever replaced. *)
Theorem finished_messages_are_never_changed (w w' : World) :
  reachable w -> reaches w w' ->
  length (messages (app w)) <= length (messages (app w')) /\
  forall i m,
    nth_error (messages (app w)) i = Some m -> pending m = false ->
    nth_error (messages (app w')) i = Some m.
Proof.
  intros R H. induction H as [w|w ev w1 w2 Hs _ IH]; [auto|].
  pose proof (reachable_consistent w R) as C.
  destruct (step_keeps_finished w w1 ev C Hs) as [Hlen Hkeep].
  destruct (IH (reachable_step w ev w1 R Hs)) as [Hlen' Hkeep'].
  split; [lia|].
  intros i m Hn Hp. apply Hkeep'; [|exact Hp]. apply Hkeep; assumption.
Qed.

Lemma finished_messages_are_never_changed_witness :
  nth_error
    (messages (app (resolved (mkWorld (mkState "hi" [] false) [] [] []) "hi"
                      error_message))) 0
  = Some (userMsg "hi").
Proof.
  apply (finished_messages_are_never_changed
           (submitted (mkWorld (mkState "hi" [] false) [] [] []) "hi")
           (resolved (mkWorld (mkState "hi" [] false) [] [] []) "hi"
              error_message)).
  - apply (reachable_step (mkWorld (mkState "hi" [] false) [] [] []) Submit);
      [|reflexivity].
    apply (reachable_step start (Change "hi")); [|reflexivity].
    apply reachable_start.
  - apply (reaches_step _ (Settle 0 Unreachable)
             (resolved (mkWorld (mkState "hi" [] false) [] [] []) "hi"
                error_message));
      [reflexivity|].
    apply reaches_refl.
  - reflexivity.
  - reflexivity.
Defined.

(** X2. In every reachable state the transcript is a sequence of
    exchanges: two messages for every request sent, a user message at every
    even index and an assistant message at every odd index. *)
Theorem transcript_alternates_user_and_assistant (w : World) :
  reachable w ->
  length (messages (app w)) = 2 * length (outbox w) /\
  forall i m,
    nth_error (messages (app w)) i = Some m ->
    role m = if Nat.even i then user else assistant.
Proof.
  intros R. destruct (reachable_exchanges w R) as (sent & He & Ho).
  split.
  - rewrite Ho, length_map. exact (exchanges_length _ _ He).
  - exact (exchanges_roles _ _ He).
Qed.

Lemma transcript_alternates_user_and_assistant_witness :
  length (messages (app (submitted (mkWorld (mkState "hi" [] false) [] [] []) "hi")))
  = 2 * length (outbox (submitted (mkWorld (mkState "hi" [] false) [] [] []) "hi")).
Proof.
  apply (transcript_alternates_user_and_assistant
           (submitted (mkWorld (mkState "hi" [] false) [] [] []) "hi")).
  apply (reachable_step (mkWorld (mkState "hi" [] false) [] [] []) Submit);
    [|reflexivity].
  apply (reachable_step start (Change "hi")); [|reflexivity].
  apply reachable_start.
Defined.

(** X3. In every reachable state the requests sent are exactly the posts of
    the texts of the user messages, one per user message and in the same
    order, each to the chat endpoint with the text as typed under
    [message]; no text is blank. *)
Theorem requests_are_the_user_messages (w : World) :
  reachable w ->
  exists sent,
    outbox w = map chat_request sent /\
    user_texts (messages (app w)) = map (fun text => Some (JString text)) sent /\
    Forall (fun text => trim text <> EmptyString) sent.
Proof.
  intros R. destruct (reachable_exchanges w R) as (sent & He & Ho).
  exists sent. split; [exact Ho|]. split.
  - exact (exchanges_user_texts _ _ He).
  - exact (exchanges_nonblank _ _ He).
Qed.

Lemma requests_are_the_user_messages_witness :
  exists sent,
    outbox (submitted (mkWorld (mkState " hi " [] false) [] [] []) " hi ")
      = map chat_request sent /\
    user_texts
      (messages (app (submitted (mkWorld (mkState " hi " [] false) [] [] []) " hi ")))
      = map (fun text => Some (JString text)) sent.
Proof.
  destruct (requests_are_the_user_messages
              (submitted (mkWorld (mkState " hi " [] false) [] [] []) " hi "))
    as (sent & H1 & H2 & _).
  - apply (reachable_step (mkWorld (mkState " hi " [] false) [] [] []) Submit);
      [|reflexivity].
    apply (reachable_step start (Change " hi ")); [|reflexivity].
    apply reachable_start.
  - exists sent. split; [exact H1 | exact H2].
Defined.

(** X4. In every reachable state at most one handler is suspended;
    [isLoading] is true exactly while one is, the number of pending messages
    is the number of suspended handlers, and while [isLoading] is true the
    input is empty. *)
Theorem loading_exactly_while_request_in_flight (w : World) :
  reachable w ->
  length (suspended w) <= 1 /\
  (isLoading (app w) = true <-> suspended w <> []) /\
  count_pending (messages (app w)) = length (suspended w) /\
  (isLoading (app w) = true -> input (app w) = EmptyString).
Proof.
  intros R. pose proof (reachable_consistent w R) as C.
  split; [|split; [|split]].
  - destruct C as [(_ & Hs & _)|(_ & Hs & _)]; rewrite Hs; cbn; lia.
  - destruct C as [(Hl & Hs & _)|(Hl & Hs & _)]; rewrite Hl, Hs;
      split; intros H; try discriminate; try reflexivity.
    contradiction H. reflexivity.
  - destruct C as [(_ & Hs & Hp)|(_ & Hs & pre & text & sent & Hm & Hp & _)].
    + rewrite Hs, Hp. reflexivity.
    + rewrite Hs, Hm, count_pending_app, Hp. reflexivity.
  - exact (reachable_loading_input w R).
Qed.

Lemma loading_exactly_while_request_in_flight_witness :
  length (suspended (submitted (mkWorld (mkState "hi" [] false) [] [] []) "hi")) <= 1.
Proof.
  apply (loading_exactly_while_request_in_flight
           (submitted (mkWorld (mkState "hi" [] false) [] [] []) "hi")).
  apply (reachable_step (mkWorld (mkState "hi" [] false) [] [] []) Submit);
    [|reflexivity].
  apply (reachable_step start (Change "hi")); [|reflexivity].
  apply reachable_start.
Defined.

(** X5. A 2xx response is never turned into the error message. Whatever
    its body, as long as it is not [null], the request ends and the
    placeholder is replaced by an assistant message holding what the body
    has under [response] and [logs]; when the body is not an object both
    are [undefined]. *)
Theorem any_2xx_body_takes_the_success_path
    (w : World) (text : string) (st : Z) (body : Json) :
  validateStatus st = true ->
  body <> JNull ->
  exists response logs,
    Get body "response" = Some response /\
    Get body "logs" = Some logs /\
    step (submitted w text) (Settle (length (suspended w)) (Responded st body))
      = Some (resolved w text (mkChatMessage assistant response logs None)) /\
    ((forall props, body <> JObject props) ->
     response = undefined /\ logs = undefined).
Proof.
  intros Hst Hb.
  assert (G : exists response logs,
             Get body "response" = Some response /\
             Get body "logs" = Some logs /\
             ((forall props, body <> JObject props) ->
              response = undefined /\ logs = undefined)).
  { destruct body; try (exists undefined, undefined; repeat split; reflexivity).
    - contradiction Hb. reflexivity.
    - eexists. eexists. split; [reflexivity|]. split; [reflexivity|].
      intros H. contradiction (H props). reflexivity. }
  destruct G as (response & logs & Hr & Hl & Hn).
  exists response, logs. repeat split; try assumption; try (apply Hn; assumption).
  exact (step_settle_answer w text st body response logs Hst Hr Hl).
Qed.

Lemma any_2xx_body_takes_the_success_path_witness :
  exists response logs,
    step (submitted (mkWorld (mkState "hi" [] false) [] [] []) "hi")
      (Settle 0 (Responded 200 (JString "<html>proxy</html>")))
    = Some (resolved (mkWorld (mkState "hi" [] false) [] [] []) "hi"
              (mkChatMessage assistant response logs None)) /\
    response = undefined /\ logs = undefined.
Proof.
  destruct (any_2xx_body_takes_the_success_path
              (mkWorld (mkState "hi" [] false) [] [] []) "hi" 200
              (JString "<html>proxy</html>"))
    as (response & logs & _ & _ & Hs & Hn).
  - reflexivity.
  - discriminate.
  - exists response, logs. split; [exact Hs|].
    apply Hn. intros props. discriminate.
Defined.

(* ================================================================= *)
(** ** What [App] renders *)

Lemma flat_map_map_from_nil {A B C : Type} (f : B -> list C) (g : A -> nat -> B)
    (l : list A) (k : nat) :
  (forall x i, f (g x i) = []) -> flat_map f (map_from g k l) = [].
Proof.
  intros H. revert k. induction l as [|x l IH]; intros k; cbn; [reflexivity|].
  rewrite H, IH. reflexivity.
Qed.

Lemma map_from_nth_inv {A B : Type} (f : A -> nat -> B) (l : list A) (k i : nat)
    (y : B) :
  nth_error (map_from f k l) i = Some y ->
  exists x, nth_error l i = Some x /\ y = f x (k + i).
Proof.
  revert k i. induction l as [|x l IH]; intros k i H.
  - destruct i; discriminate.
  - destruct i as [|i]; cbn in H.
    + inversion H. exists x. rewrite Nat.add_0_r. auto.
    + destruct (IH (S k) i H) as (x' & Hx & ->). exists x'.
      split; [exact Hx|]. f_equal. lia.
Qed.

Lemma rows_render (st : State) :
  rows (render st) = Array_map message_row (messages st).
Proof. cbn. apply removelast_last. Qed.

Lemma thinking_row (msg : ChatMessage) (idx : nat) :
  thinking (message_row msg idx) = pending msg.
Proof.
  unfold thinking, message_row, logs_slot.
  destruct (is_user msg), (pending msg); cbn; try reflexivity;
    destruct (ToBoolean (logs msg)); reflexivity.
Qed.

Lemma log_viewers_row (msg : ChatMessage) (idx : nat) :
  log_viewers (message_row msg idx) =
  if negb (is_user msg) && negb (pending msg) && ToBoolean (logs msg)
  then [logs msg] else [].
Proof.
  unfold message_row, logs_slot.
  destruct (is_user msg), (pending msg); cbn; try reflexivity;
    destruct (ToBoolean (logs msg)); reflexivity.
Qed.

Lemma by_tag_row (name : string) (msg : ChatMessage) (idx : nat) :
  name = "button"%string \/ name = "input"%string \/ name = "form"%string ->
  by_tag name (message_row msg idx) = [].
Proof.
  unfold message_row, logs_slot.
  intros [ -> | [ -> | -> ] ];
    destruct (is_user msg), (pending msg); cbn; try reflexivity;
    destruct (ToBoolean (logs msg)); reflexivity.
Qed.

Ltac page_tag :=
  unfold render; cbn [by_tag String.eqb Ascii.eqb Bool.eqb flat_map app];
  rewrite flat_map_app; unfold Array_map;
  rewrite flat_map_map_from_nil by (intros; apply by_tag_row; auto);
  cbn; reflexivity.

Lemma render_button (st : State) :
  exists attrs children,
    by_tag "button" (render st) = [Tag "button" attrs children] /\
    disabled_attr attrs
    = Some (isLoading st || negb (truthy_string (trim (input st)))).
Proof.
  destruct st as [text msgs loading].
  destruct loading; do 2 eexists; (split; [page_tag | reflexivity]).
Qed.

Lemma render_input (st : State) :
  exists attrs,
    by_tag "input" (render st) = [Tag "input" attrs []] /\
    value_attr attrs = Some (input st) /\
    disabled_attr attrs = Some (isLoading st).
Proof.
  destruct st as [text msgs loading].
  destruct loading; eexists; (split; [page_tag | split; reflexivity]).
Qed.

Lemma render_form (st : State) :
  exists attrs children,
    by_tag "form" (render st) = [Tag "form" attrs children] /\
    onSubmit_attr attrs = Some (handleSend (input st) (isLoading st)).
Proof.
  destruct st as [text msgs loading].
  destruct loading; do 2 eexists; (split; [page_tag | reflexivity]).
Qed.

Lemma log_viewers_rows (l : list ChatMessage) (k : nat) :
  flat_map log_viewers (map_from message_row k l) =
  map logs
    (filter (fun msg => negb (is_user msg) && negb (pending msg)
                          && ToBoolean (logs msg)) l).
Proof.
  revert k. induction l as [|msg l IH]; intros k; [reflexivity|].
  cbn [map_from flat_map filter]. rewrite log_viewers_row, IH.
  destruct (negb (is_user msg) && negb (pending msg) && ToBoolean (logs msg));
    reflexivity.
Qed.

Lemma submitted_differs (w : World) (text : string) : submitted w text <> w.
Proof.
  intros H. apply (f_equal (fun x => length (messages (app x)))) in H.
  cbn in H. rewrite length_app in H. cbn in H. lia.
Qed.

(* ================================================================= *)
(** ** X7-X13: the page *)

(** X7. The page has one submit button and one form. The handler of the
    form is the [handleSend] of the state rendered, and the button is
    disabled exactly when that handler would change nothing: it is disabled
    if and only if submitting leaves the page as it is, and enabled if and
    only if submitting is accepted. *)
Theorem submit_button_disabled_iff_submit_does_nothing (w : World) :
  exists button form p b,
    by_tag "button" (render (app w)) = [button] /\
    disabled_attr (attrs_of button) = Some b /\
    by_tag "form" (render (app w)) = [form] /\
    onSubmit_attr (attrs_of form) = Some p /\
    run 0 p w = step w Submit /\
    (b = true <-> step w Submit = Some w) /\
    (b = false <-> step w Submit = Some (submitted w (input (app w)))).
Proof.
  destruct (render_button (app w)) as (battrs & bchildren & Hb & Hd).
  destruct (render_form (app w)) as (fattrs & fchildren & Hf & Ho).
  exists (Tag "button" battrs bchildren), (Tag "form" fattrs fchildren).
  exists (handleSend (input (app w)) (isLoading (app w))).
  exists (isLoading (app w) || negb (truthy_string (trim (input (app w))))).
  split; [exact Hb|]. split; [exact Hd|]. split; [exact Hf|].
  split; [exact Ho|]. split; [reflexivity|].
  rewrite orb_comm.
  destruct (submit_cases w) as [G|(Ht & Hl)].
  - pose proof G as G'. apply guard_blocks in G'. rewrite G'.
    assert (Hs : step w Submit = Some w).
    { unfold step, dispatch. rewrite (handleSend_rejects _ _ G). reflexivity. }
    rewrite Hs. split; split; try reflexivity; try discriminate.
    intros H. inversion H as [H']. symmetry in H'.
    contradiction (submitted_differs _ _ H').
  - rewrite Hl, (guard_passes _ Ht), (run_accepted w _ eq_refl Hl Ht).
    split; split; try reflexivity; try discriminate.
    intros H. inversion H as [H']. contradiction (submitted_differs _ _ H').
Qed.

(** X8. In every reachable state the text field shows the input of the
    state, and it is disabled exactly while a request is in flight; a
    disabled field is empty. *)
Theorem text_field_disabled_exactly_while_in_flight (w : World) :
  reachable w ->
  exists field d,
    by_tag "input" (render (app w)) = [field] /\
    value_attr (attrs_of field) = Some (input (app w)) /\
    disabled_attr (attrs_of field) = Some d /\
    (d = true <-> suspended w <> []) /\
    (d = true -> value_attr (attrs_of field) = Some EmptyString).
Proof.
  intros R. pose proof (reachable_consistent w R) as C.
  destruct (render_input (app w)) as (attrs & Hf & Hv & Hd).
  exists (Tag "input" attrs []), (isLoading (app w)).
  split; [exact Hf|]. split; [exact Hv|]. split; [exact Hd|]. split.
  - destruct C as [(Hl & Hs & _)|(Hl & Hs & _)]; rewrite Hl, Hs;
      split; intros H; try discriminate; try reflexivity.
    contradiction H. reflexivity.
  - intros H. cbn [attrs_of]. rewrite Hv.
    rewrite (reachable_loading_input w R H). reflexivity.
Qed.

Lemma text_field_disabled_exactly_while_in_flight_witness :
  exists field,
    by_tag "input"
      (render (app (submitted (mkWorld (mkState "hi" [] false) [] [] []) "hi")))
      = [field] /\
    disabled_attr (attrs_of field) = Some true.
Proof.
  destruct (text_field_disabled_exactly_while_in_flight
              (submitted (mkWorld (mkState "hi" [] false) [] [] []) "hi"))
    as (field & d & Hf & _ & Hd & Hiff & _).
  - apply (reachable_step (mkWorld (mkState "hi" [] false) [] [] []) Submit);
      [|reflexivity].
    apply (reachable_step start (Change "hi")); [|reflexivity].
    apply reachable_start.
  - exists field. split; [exact Hf|].
    rewrite Hd. f_equal. apply Hiff. discriminate.
Defined.

(** X9. The transcript has one row per message, in the order of the
    messages, and a row shows the thinking indicator exactly when its
    message is pending. In every reachable state a row that shows it is the
    last row and a request is in flight, and while a request is in flight
    the last row shows it. *)
Theorem thinking_indicator_only_in_last_row (w : World) :
  reachable w ->
  length (rows (render (app w))) = length (messages (app w)) /\
  (forall i msg,
     nth_error (messages (app w)) i = Some msg ->
     nth_error (rows (render (app w))) i = Some (message_row msg i) /\
     thinking (message_row msg i) = pending msg) /\
  (forall i row,
     nth_error (rows (render (app w))) i = Some row ->
     thinking row = true ->
     S i = length (rows (render (app w))) /\ suspended w <> []) /\
  (suspended w <> [] ->
   exists row,
     nth_error (rows (render (app w))) (length (rows (render (app w))) - 1)
       = Some row /\
     thinking row = true).
Proof.
  intros R. pose proof (reachable_consistent w R) as C.
  rewrite rows_render. unfold Array_map.
  split; [apply map_from_length|].
  split.
  { intros i msg Hn. split; [|apply thinking_row].
    rewrite (map_from_nth message_row _ 0 i msg Hn). reflexivity. }
  split.
  - intros i row Hn Ht.
    destruct (map_from_nth_inv _ _ _ _ _ Hn) as (msg & Hm & ->).
    rewrite thinking_row in Ht. rewrite map_from_length.
    destruct (nth_error_split _ _ Hm) as (pre & post & E & Hlen).
    destruct (tidy_messages_last _ _ (consistent_tidy w C) pre msg post E Ht)
      as (-> & _).
    split.
    + rewrite E, length_app. cbn. lia.
    + destruct C as [(_ & _ & Hp)|(_ & Hs & _)]; [|rewrite Hs; discriminate].
      rewrite (count_pending_zero _ msg Hp) in Ht; [discriminate|].
      rewrite E. apply in_elt.
  - intros Hs.
    destruct C as [(_ & Hs' & _)|(_ & _ & pre & text & sent & Hm & _)];
      [contradiction|].
    exists (message_row placeholder (length pre + 1)).
    rewrite map_from_length, Hm, length_app. cbn [length].
    replace (length pre + 2 - 1) with (length pre + 1) by lia.
    split; [|apply thinking_row].
    apply (map_from_nth message_row _ 0 (length pre + 1) placeholder).
    apply nth_error_app_second.
Qed.

Lemma thinking_indicator_only_in_last_row_witness :
  length (rows (render (app (submitted (mkWorld (mkState "hi" [] false) [] [] []) "hi"))))
  = 2.
Proof.
  apply (thinking_indicator_only_in_last_row
           (submitted (mkWorld (mkState "hi" [] false) [] [] []) "hi")).
  apply (reachable_step (mkWorld (mkState "hi" [] false) [] [] []) Submit);
    [|reflexivity].
  apply (reachable_step start (Change "hi")); [|reflexivity].
  apply reachable_start.
Defined.

(** X10. The page mounts a [LogViewer] for the assistant messages that are
    not pending and whose [logs] is truthy, one each, in the order of the
    messages, with that [logs] as prop, and nowhere else: none for a user
    message, none for the placeholder and none for the error message. *)
Theorem LogViewer_mounted_for_finished_assistant_messages_with_logs
    (st : State) :
  log_viewers (render st) =
    map logs
      (filter (fun msg => negb (is_user msg) && negb (pending msg)
                            && ToBoolean (logs msg)) (messages st)) /\
  (forall text idx, log_viewers (message_row (userMsg text) idx) = []) /\
  (forall idx, log_viewers (message_row placeholder idx) = []) /\
  (forall idx, log_viewers (message_row error_message idx) = []) /\
  (forall response l idx,
     log_viewers (message_row (answer response (Some (JArray l))) idx)
     = [Some (JArray l)]).
Proof.
  split.
  - destruct st as [text msgs loading].
    unfold render. cbn [log_viewers flat_map app messages].
    rewrite !app_nil_r, flat_map_app. unfold Array_map.
    rewrite log_viewers_rows.
    destruct loading; cbn; rewrite ?app_nil_r; reflexivity.
  - repeat split; intros; reflexivity.
Qed.

Lemma last_row (w : World) (text : string) (m : ChatMessage) :
  nth_error (rows (render (app (resolved w text m))))
    (length (messages (app w)) + 1)
  = Some (message_row m (length (messages (app w)) + 1)) /\
  S (length (messages (app w)) + 1)
  = length (rows (render (app (resolved w text m)))).
Proof.
  rewrite rows_render. unfold Array_map. split.
  - apply (map_from_nth message_row _ 0). cbn. apply nth_error_app_second.
  - rewrite map_from_length. cbn. rewrite length_app. cbn. lia.
Qed.

Lemma markdown_row (m : ChatMessage) (idx : nat) :
  pending m = false ->
  by_tag "ReactMarkdown" (message_row m idx)
  = [Tag "ReactMarkdown" [RemarkPlugins] [Expr (content m)]].
Proof.
  intros Hp. unfold message_row, logs_slot. rewrite Hp.
  destruct (is_user m); cbn; [reflexivity|].
  destruct (ToBoolean (logs m)); reflexivity.
Qed.

(** X11. After an accepted submit whose request is rejected, the last row
    of the transcript shows the fixed error text, without the thinking
    indicator and without a [LogViewer]; the text field is enabled and
    empty, and the submit button is disabled, as the input is empty. *)
Theorem page_after_a_rejected_request (w : World) (text : string)
    (x : HttpExchange) :
  input (app w) = text ->
  trim text <> EmptyString ->
  isLoading (app w) = false ->
  transport_failure x = true \/ error_status x = true ->
  exists w1 w2 row field button,
    step w Submit = Some w1 /\
    step w1 (Settle (length (suspended w)) x) = Some w2 /\
    nth_error (rows (render (app w2))) (length (messages (app w)) + 1)
      = Some row /\
    S (length (messages (app w)) + 1) = length (rows (render (app w2))) /\
    thinking row = false /\
    log_viewers row = [] /\
    by_tag "ReactMarkdown" row
      = [ Tag "ReactMarkdown" [RemarkPlugins]
            [Expr (Some (JString "Error: Failed to connect to Biomni backend."))] ] /\
    by_tag "input" (render (app w2)) = [field] /\
    disabled_attr (attrs_of field) = Some false /\
    value_attr (attrs_of field) = Some EmptyString /\
    by_tag "button" (render (app w2)) = [button] /\
    disabled_attr (attrs_of button) = Some true.
Proof.
  intros Hi Ht Hl Hx.
  destruct (last_row w text error_message) as [Hrow Hlast].
  destruct (render_input (app (resolved w text error_message)))
    as (fattrs & Hf & Hv & Hd).
  destruct (render_button (app (resolved w text error_message)))
    as (battrs & bchildren & Hb & Hbd).
  exists (submitted w text), (resolved w text error_message).
  exists (message_row error_message (length (messages (app w)) + 1)).
  exists (Tag "input" fattrs []), (Tag "button" battrs bchildren).
  split; [apply run_accepted; assumption|].
  split; [apply step_settle_error; assumption|].
  split; [exact Hrow|]. split; [exact Hlast|].
  split; [apply thinking_row|].
  split; [reflexivity|].
  split; [apply markdown_row; reflexivity|].
  split; [exact Hf|]. split; [exact Hd|]. split; [exact Hv|].
  split; [exact Hb | exact Hbd].
Qed.

Lemma page_after_a_rejected_request_witness :
  exists w1 w2 button,
    step (mkWorld (mkState "test" [] false) [] [] []) Submit = Some w1 /\
    step w1 (Settle 0 (Responded 503 (JString "Service Unavailable"))) = Some w2 /\
    by_tag "button" (render (app w2)) = [button] /\
    disabled_attr (attrs_of button) = Some true.
Proof.
  destruct (page_after_a_rejected_request
              (mkWorld (mkState "test" [] false) [] [] []) "test"
              (Responded 503 (JString "Service Unavailable")))
    as (w1 & w2 & row & field & button & H1 & H2 & _ & _ & _ & _ & _ & _ & _ & _ & Hb & Hd).
  - reflexivity.
  - vm_compute. discriminate.
  - reflexivity.
  - right. reflexivity.
  - exists w1, w2, button. repeat split; assumption.
Defined.

(** X12. After an accepted submit that a 2xx response answers with a
    string under [response] and an array under [logs], the last row of the
    transcript hands that string to ReactMarkdown and mounts one [LogViewer]
    whose prop is that array. The first render of [LogViewer] on this array
    shows nothing when the array is empty, and otherwise one button that
    gives the number of steps. *)
Theorem page_after_an_answer_with_logs (w : World) (text : string) (st : Z)
    (body : Json) (reply : string) (l : list LogStep) :
  input (app w) = text ->
  trim text <> EmptyString ->
  isLoading (app w) = false ->
  validateStatus st = true ->
  Get body "response" = Some (Some (JString reply)) ->
  Get body "logs" = Some (Some (JArray l)) ->
  exists w1 w2 row,
    step w Submit = Some w1 /\
    step w1 (Settle (length (suspended w)) (Responded st body)) = Some w2 /\
    nth_error (rows (render (app w2))) (length (messages (app w)) + 1)
      = Some row /\
    S (length (messages (app w)) + 1) = length (rows (render (app w2))) /\
    thinking row = false /\
    by_tag "ReactMarkdown" row
      = [Tag "ReactMarkdown" [RemarkPlugins] [Expr (Some (JString reply))]] /\
    log_viewers row = [Some (JArray l)] /\
    (l = [] -> LogViewer (Some l) isOpen_initial = None) /\
    (l <> [] ->
     exists root,
       LogViewer (Some l) isOpen_initial = Some root /\
       map textContent (select "button" root) = [control_label (length l)]).
Proof.
  intros Hi Ht Hl Hst Hr Hlogs.
  destruct (last_row w text (answer (Some (JString reply)) (Some (JArray l))))
    as [Hrow Hlast].
  exists (submitted w text).
  exists (resolved w text (answer (Some (JString reply)) (Some (JArray l)))).
  exists (message_row (answer (Some (JString reply)) (Some (JArray l)))
            (length (messages (app w)) + 1)).
  split; [apply run_accepted; assumption|].
  split; [apply step_settle_answer; assumption|].
  split; [exact Hrow|]. split; [exact Hlast|].
  split; [apply thinking_row|].
  split; [apply markdown_row; reflexivity|].
  split; [reflexivity|].
  split.
  - intros ->. reflexivity.
  - intros Hne. eexists. split.
    + exact (LogViewer_collapsed l Hne).
    + cbn. rewrite !append_nil_r. reflexivity.
Qed.

Lemma page_after_an_answer_with_logs_witness :
  exists w1 w2 row,
    step (mkWorld (mkState "hi" [] false) [] [] []) Submit = Some w1 /\
    step w1 (Settle 0 (Responded 200
               (JObject [("response"%string, JString "hello");
                         ("logs"%string, JArray [])]))) = Some w2 /\
    nth_error (rows (render (app w2))) 1 = Some row /\
    log_viewers row = [Some (JArray [])].
Proof.
  destruct (page_after_an_answer_with_logs
              (mkWorld (mkState "hi" [] false) [] [] []) "hi" 200
              (JObject [("response"%string, JString "hello");
                        ("logs"%string, JArray [])])
              "hello" [])
    as (w1 & w2 & row & H1 & H2 & H3 & _ & _ & _ & H4 & _).
  - reflexivity.
  - vm_compute. discriminate.
  - reflexivity.
  - reflexivity.
  - reflexivity.
  - reflexivity.
  - exists w1, w2, row. repeat split; assumption.
Defined.

(** X13. For an assistant message that is not pending and whose [logs] is
    falsy, the place of the [LogViewer] holds the value of [logs] itself. It
    prints nothing when [logs] is [undefined], [null], [false] or the empty
    string; when [logs] is the number 0, of either sign, it prints 0. *)
Theorem falsy_logs_are_put_in_the_row (msg : ChatMessage) :
  role msg = assistant ->
  pending msg = false ->
  ToBoolean (logs msg) = false ->
  logs_slot msg = Expr (logs msg) /\
  (((exists negative, logs msg = Some (JNumber (Zero negative))) /\
    printed (logs msg) = Some "0"%string) \/
   ((forall x, logs msg <> Some (JNumber x)) /\
    printed (logs msg) = Some EmptyString)).
Proof.
  intros Hr Hp Hl. split.
  - unfold logs_slot, is_user. rewrite Hr, Hp, Hl. reflexivity.
  - destruct (logs msg) as [[|b|x|s|elems|props]|]; cbn in Hl;
      try discriminate;
      try (right; split; [intros x; discriminate | reflexivity]).
    + destruct x as [negative|negative s n|negative]; try discriminate Hl.
      left. split; [exists negative; reflexivity | reflexivity].
    + destruct s; [|discriminate].
      right. split; [intros x; discriminate | reflexivity].
Qed.

Lemma falsy_logs_are_put_in_the_row_witness :
  logs_slot (answer (Some (JString "done")) (Some (JNumber (Zero false))))
  = Expr (Some (JNumber (Zero false))).
Proof.
  apply (falsy_logs_are_put_in_the_row
           (answer (Some (JString "done")) (Some (JNumber (Zero false)))));
    reflexivity.
Defined.

(* ================================================================= *)
(** ** X14: the expanded view and the trace *)

Lemma same_print_Serialize (v : Json) :
  forall gap indent v',
    same_print v v' ->
    SerializeJSONProperty gap indent v = SerializeJSONProperty gap indent v'.
Proof.
  induction v as [|b|x|s|elems IH|props IH] using Json_nested_ind;
    intros gap indent v' S.
  - inversion S as [|y F| | | | | |]; subst; cbn [SerializeJSONProperty];
      [reflexivity | rewrite F; reflexivity].
  - inversion S; subst. reflexivity.
  - inversion S as [| |y F|y z E| | | |]; subst; cbn [SerializeJSONProperty].
    + rewrite F. reflexivity.
    + exact E.
  - inversion S; subst. reflexivity.
  - inversion S as [| | | | | |l l' F|]; subst. clear S.
    assert (M : forall i, map (SerializeJSONProperty gap i) elems
                          = map (SerializeJSONProperty gap i) l').
    { intros i. revert IH. induction F as [|a b l l' Rab _ IHF]; intros IH;
        [reflexivity|].
      inversion IH as [|? ? Pa Pl]; subst. cbn [map].
      rewrite (Pa gap i b Rab), (IHF Pl). reflexivity. }
    destruct F as [|a b l l' _ _]; [reflexivity|].
    rewrite !Serialize_array, M. reflexivity.
  - inversion S as [| | | | | | |l l' F]; subst. clear S.
    assert (M : forall i,
               map (fun p => (QuoteJSONString (fst p) ++ ": "
                                ++ SerializeJSONProperty gap i (snd p))%string)
                 props
               = map (fun p => (QuoteJSONString (fst p) ++ ": "
                                  ++ SerializeJSONProperty gap i (snd p))%string)
                   l').
    { intros i. revert IH. induction F as [|a b l l' [Ek Rab] _ IHF]; intros IH;
        [reflexivity|].
      inversion IH as [|? ? Pa Pl]; subst. cbn [map].
      rewrite Ek, (Pa gap i (snd b) Rab), (IHF Pl). reflexivity. }
    destruct F as [|a b l l' _ _]; [reflexivity|].
    rewrite !Serialize_object, M. reflexivity.
Qed.

Lemma step_blocks_same_print (logs logs' : list LogStep) (k : nat) :
  map_from step_block k logs = map_from step_block k logs' <->
  Forall2 same_print logs logs'.
Proof.
  split.
  - revert logs' k. induction logs as [|x logs IH]; intros [|y logs'] k H;
      try discriminate H; [constructor|].
    cbn in H. injection H as Hx H. constructor.
    + exact (JSON_stringify_same_print _ _ 2 Hx).
    + exact (IH _ _ H).
  - intros F. revert k. induction F as [|x y l l' R _ IH]; intros k;
      [reflexivity|].
    cbn [map_from]. rewrite (IH (S k)). unfold step_block, JSON_stringify.
    rewrite (same_print_Serialize x _ _ y R). reflexivity.
Qed.

(** X14. The expanded view determines the trace up to the spelling of
    numbers. Two step records have the same block text, and two traces the
    same expanded rendering, exactly when they have the same steps with the
    same nesting, the same keys in the same order, the same strings and
    booleans, and at every place of a number two numbers that are printed
    alike (as 0 and -0) or [null] and a number that is not finite. The
    collapsed view depends on the trace through its number of steps
    only. *)
Theorem expanded_view_determines_the_trace (logs logs' : list LogStep) :
  (forall v v', JSON_stringify v 2 = JSON_stringify v' 2 <-> same_print v v') /\
  (LogViewer (Some logs) true = LogViewer (Some logs') true <->
   Forall2 same_print logs logs') /\
  (length logs = length logs' ->
   LogViewer (Some logs) false = LogViewer (Some logs') false).
Proof.
  split; [|split].
  - intros v v'. split; [apply JSON_stringify_same_print|].
    intros S. unfold JSON_stringify. exact (same_print_Serialize v _ _ v' S).
  - split.
    + destruct logs as [|x logs], logs' as [|y logs'];
        [constructor | discriminate | discriminate |].
      rewrite !LogViewer_expanded by discriminate.
      intros H.
      assert (E : map_from step_block 0 (x :: logs)
                  = map_from step_block 0 (y :: logs')) by congruence.
      apply (step_blocks_same_print _ _ 0). exact E.
    + intros F.
      pose proof (Forall2_length F) as Hlen.
      apply (step_blocks_same_print _ _ 0) in F.
      destruct logs as [|x logs], logs' as [|y logs'];
        [reflexivity | discriminate Hlen | discriminate Hlen |].
      rewrite !LogViewer_expanded by discriminate.
      rewrite F. unfold LogStep in *. rewrite Hlen. reflexivity.
  - destruct logs as [|x logs], logs' as [|y logs'];
      [reflexivity | discriminate | discriminate |].
    intros H. rewrite !LogViewer_collapsed by discriminate.
    rewrite H. reflexivity.
Qed.

Lemma expanded_view_determines_the_trace_witness :
  LogViewer
    (Some [JObject [("step"%string, JString "search");
                    ("score"%string, JNumber (Zero true))]]) true
  = LogViewer
      (Some [JObject [("step"%string, JString "search");
                      ("score"%string, JNumber (Zero false))]]) true
  /\
  Forall2 same_print
    [JObject [("step"%string, JString "search");
              ("score"%string, JNumber (Zero true))]]
    [JObject [("step"%string, JString "search");
              ("score"%string, JNumber (Zero false))]].
Proof.
  split; [reflexivity|].
  apply (expanded_view_determines_the_trace
           [JObject [("step"%string, JString "search");
                     ("score"%string, JNumber (Zero true))]]
           [JObject [("step"%string, JString "search");
                     ("score"%string, JNumber (Zero false))]]).
  reflexivity.
Defined.
